(** * custom-asmr: the spatial audio engine, its capture controller and the
      orchestration layer, embedded from the TypeScript sources.

    Conventions of the embedding.

    - A JavaScript [number] is an exact rational ([Q]).  The sources only
      add, subtract, multiply, divide, negate and clamp, and every statement
      below is about finite values; division is by the size of a rendered
      rectangle and is only used under the assumption that the size is
      positive.  [Math.max] and [Math.min] are [Qmax] and [Qmin].
    - Browser objects (audio contexts, audio nodes, media stream tracks) live
      in a [Host] store and are named by identifiers, because the hooks keep
      references to them and mutate them in place.
    - React state ([useState]) and refs ([useRef]) are fields of the hook
      records; a setter is an assignment.
    - A function that can throw runs in the monad [Js]: it returns a
      completion ([Normal] or [Throw]) together with the state it reached, as
      a JavaScript exception leaves the writes made before it in place.
    - An [await] is sequential composition: the design has at most one start
      or stop sequence in flight.  What the browser answers at an [await]
      (context creation, resume, the sharing prompt) is an argument of the
      operation, and only settled promises are modelled. *)

From Stdlib Require Import QArith Qminmax Lqa String.
From stdpp Require Import base option list gmap strings.

Local Open Scope Q_scope.

(** ** Numbers *)

Module Num.

(** [Math.max] and [Math.min] on finite numbers. *)
Definition Math_max (a b : Q) : Q := Qmax a b.
Definition Math_min (a b : Q) : Q := Qmin a b.

End Num.

(** ** Completions and the state monad of the hooks *)

Module Js.

(** What a [throw] carries: an [Error] object with its [name], or any other
    value ([err instanceof Error] is false for it). *)
Inductive Thrown :=
| ErrorObject (name : string)
| NonError.

Inductive Completion (A : Type) :=
| Normal (a : A)
| Throw (e : Thrown).
Arguments Normal {A} a.
Arguments Throw {A} e.

Definition Js (S A : Type) : Type := S -> Completion A * S.

Definition ret {S A} (a : A) : Js S A := fun s => (Normal a, s).

Definition bind {S A B} (m : Js S A) (k : A -> Js S B) : Js S B :=
  fun s =>
    match m s with
    | (Normal a, s') => k a s'
    | (Throw e, s') => (Throw e, s')
    end.

Definition throw {S A} (e : Thrown) : Js S A := fun s => (Throw e, s).

(** [try { m } catch (err) { h err }] *)
Definition try_catch {S A} (m : Js S A) (h : Thrown -> Js S A) : Js S A :=
  fun s =>
    match m s with
    | (Normal a, s') => (Normal a, s')
    | (Throw e, s') => h e s'
    end.

Definition gets {S A} (f : S -> A) : Js S A := fun s => (Normal (f s), s).
Definition modify {S} (f : S -> S) : Js S unit := fun s => (Normal tt, f s).

(** Run a computation on a component of the state. *)
Definition zoom {S T A} (get : S -> T) (set : T -> S -> S) (m : Js T A)
  : Js S A :=
  fun s => let '(r, t) := m (get s) in (r, set t s).

(** [xs.forEach(f)] *)
Fixpoint forEach {S A} (f : A -> Js S unit) (xs : list A) : Js S unit :=
  match xs with
  | [] => ret tt
  | x :: xs' => bind (f x) (fun _ => forEach f xs')
  end.

Definition result {S A} (m : Js S A) (s : S) : Completion A := fst (m s).
Definition exec {S A} (m : Js S A) (s : S) : S := snd (m s).

End Js.

Import Js.

Declare Scope js_scope.
Delimit Scope js_scope with js.
Notation "'let*' x ':=' m 'in' k" := (bind m (fun x => k))
  (at level 10, x name, m at level 100, k at level 200) : js_scope.
Notation "m ';;' k" := (bind m (fun _ => k))
  (at level 100, k at level 200, right associativity) : js_scope.
Local Open Scope js_scope.

(** ** The browser: audio contexts, nodes, parameters, tracks *)

Module Host.

(** [AudioContext.state] *)
Inductive ContextState := suspended | running | closed.

(** [MediaStreamTrack.readyState] *)
Inductive TrackState := live | ended.

(** A [MediaStream]: its identity and its tracks, by kind. *)
Record MediaStream := mkMediaStream {
  stream_id : nat;
  audioTracks : list nat;
  videoTracks : list nat
}.

(** [stream.getTracks()] *)
Definition getTracks (s : MediaStream) : list nat :=
  audioTracks s ++ videoTracks s.

Inductive PanningModelType := equalpower | HRTF.
Inductive DistanceModelType := linear | inverse | exponential.

(** The attributes [createPannerNode] assigns on a [PannerNode]. *)
Record PannerAttributes := mkPannerAttributes {
  panningModel : PanningModelType;
  distanceModel : DistanceModelType;
  maxDistance : Q;
  refDistance : Q;
  rolloffFactor : Q;
  coneInnerAngle : Q;
  coneOuterAngle : Q;
  coneOuterGain : Q
}.

Inductive AudioNode :=
| PannerNode (ctx : nat) (attrs : PannerAttributes)
| GainNode (ctx : nat)
| MediaStreamAudioSourceNode (ctx : nat) (stream : MediaStream).

(** Where [connect] leads: another node, or a context's [destination]. *)
Inductive Endpoint :=
| ToNode (id : nat)
| ToDestination (ctx : nat).

Inductive ListenerField :=
| l_positionX | l_positionY | l_positionZ
| l_forwardX | l_forwardY | l_forwardZ
| l_upX | l_upY | l_upZ.

(** The [AudioParam]s the sources touch. *)
Inductive AudioParam :=
| positionX (panner : nat)
| positionY (panner : nat)
| positionZ (panner : nat)
| gainParam (node : nat)
| listenerParam (ctx : nat) (f : ListenerField).

(** What is done to an [AudioParam]: [p.value = v], an instantaneous write,
    or [p.setTargetAtTime(target, startTime, timeConstant)], an exponential
    approach to [target]. *)
Inductive ParamOp :=
| SetValue (p : AudioParam) (v : Q)
| SetTargetAtTime (p : AudioParam) (target startTime timeConstant : Q).

(** A parameter operation that approaches its target with the time constant
    of 20 ms, as opposed to an instantaneous write. *)
Definition smoothed (op : ParamOp) : Prop :=
  match op with
  | SetTargetAtTime _ _ _ timeConstant => timeConstant = 0.02
  | SetValue _ _ => False
  end.

Record Host := mkHost {
  next_id : nat;                        (* next fresh object identity *)
  contexts : gmap nat ContextState;     (* every AudioContext created *)
  nodes : gmap nat AudioNode;           (* every AudioNode created *)
  edges : list (nat * Endpoint);        (* connections in force *)
  timeline : list ParamOp;              (* parameter operations, oldest first *)
  currentTime : Q;                      (* the clock of the audio contexts *)
  tracks : gmap nat TrackState;         (* every MediaStreamTrack created *)
  listeners : list nat;                 (* tracks with an 'ended' listener *)
  prompts : nat;                        (* sharing prompts shown so far *)
  has_getDisplayMedia : bool            (* "getDisplayMedia" in mediaDevices *)
}.

Definition with_next_id (n : nat) (h : Host) : Host :=
  mkHost n (contexts h) (nodes h) (edges h) (timeline h) (currentTime h)
         (tracks h) (listeners h) (prompts h) (has_getDisplayMedia h).
Definition with_contexts (c : gmap nat ContextState) (h : Host) : Host :=
  mkHost (next_id h) c (nodes h) (edges h) (timeline h) (currentTime h)
         (tracks h) (listeners h) (prompts h) (has_getDisplayMedia h).
Definition with_nodes (n : gmap nat AudioNode) (h : Host) : Host :=
  mkHost (next_id h) (contexts h) n (edges h) (timeline h) (currentTime h)
         (tracks h) (listeners h) (prompts h) (has_getDisplayMedia h).
Definition with_edges (e : list (nat * Endpoint)) (h : Host) : Host :=
  mkHost (next_id h) (contexts h) (nodes h) e (timeline h) (currentTime h)
         (tracks h) (listeners h) (prompts h) (has_getDisplayMedia h).
Definition with_timeline (t : list ParamOp) (h : Host) : Host :=
  mkHost (next_id h) (contexts h) (nodes h) (edges h) t (currentTime h)
         (tracks h) (listeners h) (prompts h) (has_getDisplayMedia h).
Definition with_tracks (t : gmap nat TrackState) (h : Host) : Host :=
  mkHost (next_id h) (contexts h) (nodes h) (edges h) (timeline h)
         (currentTime h) t (listeners h) (prompts h) (has_getDisplayMedia h).
Definition with_listeners (l : list nat) (h : Host) : Host :=
  mkHost (next_id h) (contexts h) (nodes h) (edges h) (timeline h)
         (currentTime h) (tracks h) l (prompts h) (has_getDisplayMedia h).
Definition with_prompts (p : nat) (h : Host) : Host :=
  mkHost (next_id h) (contexts h) (nodes h) (edges h) (timeline h)
         (currentTime h) (tracks h) (listeners h) p (has_getDisplayMedia h).

(** A fresh object identity. *)
Definition fresh : Js Host nat :=
  fun h => (Normal (next_id h), with_next_id (S (next_id h)) h).

(** [p.value = v] and [p.setTargetAtTime(...)] *)
Definition record (op : ParamOp) : Js Host unit :=
  modify (fun h => with_timeline (timeline h ++ [op]) h).

(** [node.connect(target)] *)
Definition connect (node : nat) (target : Endpoint) : Js Host unit :=
  modify (fun h => with_edges (edges h ++ [(node, target)]) h).

(** [node.disconnect()]: every outgoing connection of [node] goes. *)
Definition disconnect (node : nat) : Js Host unit :=
  modify (fun h =>
    with_edges (filter (fun e : nat * Endpoint => e.1 <> node) (edges h)) h).

(** [track.stop()] *)
Definition stopTrack (t : nat) : Js Host unit :=
  modify (fun h => with_tracks (<[t := ended]> (tracks h)) h).

(** What the browser answers to [new AudioContext()], to [resume()] and
    about the listener's parameters, during one call of [initialize]. *)
Record AudioEnv := mkAudioEnv {
  context_available : bool;      (* new AudioContext() does not throw *)
  starts_suspended : bool;       (* the new context is "suspended" *)
  resume_succeeds : bool;        (* context.resume() is fulfilled *)
  listener_has_position : bool;  (* listener.positionX is defined *)
  listener_has_forward : bool    (* listener.forwardX is defined *)
}.

(** What the browser answers to [getDisplayMedia]: a stream with so many
    audio and video tracks, or a rejection. *)
Inductive DisplayMediaOutcome :=
| Granted (n_audio n_video : nat)
| Rejected (e : Thrown).

(** [n] fresh live tracks. *)
Fixpoint newTracks (n : nat) : Js Host (list nat) :=
  match n with
  | O => ret []
  | S n' =>
      let* t := fresh in
      modify (fun h => with_tracks (<[t := live]> (tracks h)) h);;
      let* ts := newTracks n' in
      ret (t :: ts)
  end.

(** [navigator.mediaDevices.getDisplayMedia({audio, video: true})].
    Without the API the call itself is a [TypeError] and no prompt is
    shown. *)
Definition getDisplayMedia (o : DisplayMediaOutcome) : Js Host MediaStream :=
  let* supported := gets has_getDisplayMedia in
  if negb supported then throw (ErrorObject "TypeError")
  else
    modify (fun h => with_prompts (S (prompts h)) h);;
    match o with
    | Rejected e => throw e
    | Granted n_audio n_video =>
        let* sid := fresh in
        let* audio := newTracks n_audio in
        let* video := newTracks n_video in
        ret (mkMediaStream sid audio video)
    end.

(** [new MediaStream(tracks)] *)
Definition newMediaStream (audio : list nat) : Js Host MediaStream :=
  let* sid := fresh in
  ret (mkMediaStream sid audio []).

(** [track.addEventListener("ended", ...)] *)
Definition addEndedListener (t : nat) : Js Host unit :=
  modify (fun h => with_listeners (listeners h ++ [t]) h).

End Host.

Import Host.

(** ** spatial-audio-engine.ts *)

Module Engine.
Import Num.

(** [interface Position3D] *)
Record Position3D := mkPosition3D { x : Q; y : Q; z : Q }.

(** [interface SpatialAudioConfig] *)
Record SpatialAudioConfig := mkConfig {
  cfg_maxDistance : Q;
  cfg_refDistance : Q;
  cfg_rolloffFactor : Q;
  cfg_panningModel : PanningModelType;
  cfg_distanceModel : DistanceModelType
}.

Definition DEFAULT_CONFIG : SpatialAudioConfig :=
  {| cfg_maxDistance := 10;
     cfg_refDistance := 1;
     cfg_rolloffFactor := 1;
     cfg_panningModel := HRTF;
     cfg_distanceModel := inverse |}.

(** [interface SpatialAudioNodes]; the field [gain] of the source is
    [gain_node] here. *)
Record SpatialAudioNodes := mkNodes {
  context : nat;
  source : option nat;
  panner : nat;
  gain_node : nat
}.

(** [function createAudioContext()] *)
Definition createAudioContext (env : AudioEnv) : Js Host nat :=
  if context_available env then
    let* ctx := fresh in
    modify (fun h =>
      with_contexts
        (<[ctx := if starts_suspended env then suspended else running]>
           (contexts h)) h);;
    ret ctx
  else throw (ErrorObject "ReferenceError").

(** [async function resumeAudioContext(context)] *)
Definition resumeAudioContext (env : AudioEnv) (ctx : nat) : Js Host unit :=
  let* st := gets (fun h => contexts h !! ctx) in
  match st with
  | Some suspended =>
      if resume_succeeds env then
        modify (fun h => with_contexts (<[ctx := running]> (contexts h)) h)
      else throw (ErrorObject "InvalidStateError")
  | _ => ret tt
  end.

(** [function createPannerNode(context, config)] *)
Definition createPannerNode (ctx : nat) (config : SpatialAudioConfig)
  : Js Host nat :=
  let* p := fresh in
  modify (fun h =>
    with_nodes
      (<[p := PannerNode ctx
                {| panningModel := cfg_panningModel config;
                   distanceModel := cfg_distanceModel config;
                   maxDistance := cfg_maxDistance config;
                   refDistance := cfg_refDistance config;
                   rolloffFactor := cfg_rolloffFactor config;
                   coneInnerAngle := 360;
                   coneOuterAngle := 360;
                   coneOuterGain := 0 |}]> (nodes h)) h);;
  record (SetValue (positionX p) 0);;
  record (SetValue (positionY p) 0);;
  record (SetValue (positionZ p) 1);;
  ret p.

(** [function createGainNode(context, initialGain)] *)
Definition createGainNode (ctx : nat) (initialGain : Q) : Js Host nat :=
  let* g := fresh in
  modify (fun h => with_nodes (<[g := GainNode ctx]> (nodes h)) h);;
  record (SetValue (gainParam g) initialGain);;
  ret g.

(** [function createMediaStreamSource(context, stream)].  The browser
    refuses a stream without an audio track. *)
Definition createMediaStreamSource (ctx : nat) (stream : MediaStream)
  : Js Host nat :=
  match audioTracks stream with
  | [] => throw (ErrorObject "InvalidStateError")
  | _ :: _ =>
      let* s := fresh in
      modify (fun h =>
        with_nodes (<[s := MediaStreamAudioSourceNode ctx stream]> (nodes h)) h);;
      ret s
  end.

(** [function connectAudioGraph(nodes)] *)
Definition connectAudioGraph (n : SpatialAudioNodes) : Js Host unit :=
  match source n with
  | None => ret tt
  | Some s =>
      connect s (ToNode (panner n));;
      connect (panner n) (ToNode (gain_node n));;
      connect (gain_node n) (ToDestination (context n))
  end.

(** [function disconnectAudioGraph(nodes)] *)
Definition disconnectAudioGraph (n : SpatialAudioNodes) : Js Host unit :=
  match source n with
  | Some s => disconnect s
  | None => ret tt
  end;;
  disconnect (panner n);;
  disconnect (gain_node n).

(** [function updateSourcePosition(panner, position, scale = 5)] *)
Definition updateSourcePosition (p : nat) (position : Position3D) (scale : Q)
  : Js Host unit :=
  let x' := x position * scale in
  let y' := y position * scale in
  let z' := z position * scale in
  let* now := gets currentTime in
  record (SetTargetAtTime (positionX p) x' now 0.02);;
  record (SetTargetAtTime (positionY p) y' now 0.02);;
  record (SetTargetAtTime (positionZ p) z' now 0.02).

(** [function updateGain(gain, value)] *)
Definition updateGain (g : nat) (value : Q) : Js Host unit :=
  let clampedValue := Math_max 0 (Math_min 1 value) in
  let* now := gets currentTime in
  record (SetTargetAtTime (gainParam g) clampedValue now 0.02).

(** [function setListenerPosition(context, position, forward, up)] *)
Definition setListenerPosition (env : AudioEnv) (ctx : nat)
    (position forward up : Position3D) : Js Host unit :=
  (if listener_has_position env then
     record (SetValue (listenerParam ctx l_positionX) (x position));;
     record (SetValue (listenerParam ctx l_positionY) (y position));;
     record (SetValue (listenerParam ctx l_positionZ) (z position))
   else ret tt);;
  (if listener_has_forward env then
     record (SetValue (listenerParam ctx l_forwardX) (x forward));;
     record (SetValue (listenerParam ctx l_forwardY) (y forward));;
     record (SetValue (listenerParam ctx l_forwardZ) (z forward));;
     record (SetValue (listenerParam ctx l_upX) (x up));;
     record (SetValue (listenerParam ctx l_upY) (y up));;
     record (SetValue (listenerParam ctx l_upZ) (z up))
   else ret tt).

(** [async function closeAudioContext(context)] *)
Definition closeAudioContext (ctx : nat) : Js Host unit :=
  modify (fun h => with_contexts (<[ctx := closed]> (contexts h)) h).

(** [function padToPosition3D(padX, padY, height = 0)] *)
Definition padToPosition3D (padX padY height : Q) : Position3D :=
  {| x := padX;
     y := height;
     z := - padY |}.

End Engine.

(** ** Hooks: state next to the browser *)

Module Hook.

(** A hook runs on the browser store paired with its own state. *)
Definition onHost {T A} (m : Js Host A) : Js (Host * T) A :=
  zoom fst (fun h s => (h, s.2)) m.

Definition read {T A} (f : T -> A) : Js (Host * T) A :=
  gets (fun s => f s.2).

Definition write {T} (f : T -> T) : Js (Host * T) unit :=
  modify (fun s => (s.1, f s.2)).

End Hook.

Import Hook.

(** ** use-spatial-audio.ts *)

Module SpatialAudio.
Import Engine.

(** [type SpatialAudioStatus] *)
Inductive SpatialAudioStatus := idle | initializing | ready | active | error.

(** [Partial<SpatialAudioConfig>] *)
Record PartialConfig := mkPartialConfig {
  opt_maxDistance : option Q;
  opt_refDistance : option Q;
  opt_rolloffFactor : option Q;
  opt_panningModel : option PanningModelType;
  opt_distanceModel : option DistanceModelType
}.

(** [interface UseSpatialAudioOptions] *)
Record UseSpatialAudioOptions := mkOptions {
  config : PartialConfig;
  initialGain : Q
}.

(** [options = {}], [config = {}], [initialGain = 1] *)
Definition default_options : UseSpatialAudioOptions :=
  {| config := mkPartialConfig None None None None None;
     initialGain := 1 |}.

(** [{ ...DEFAULT_CONFIG, ...config }] *)
Definition mergeConfig (base : SpatialAudioConfig) (c : PartialConfig)
  : SpatialAudioConfig :=
  {| cfg_maxDistance := default (cfg_maxDistance base) (opt_maxDistance c);
     cfg_refDistance := default (cfg_refDistance base) (opt_refDistance c);
     cfg_rolloffFactor :=
       default (cfg_rolloffFactor base) (opt_rolloffFactor c);
     cfg_panningModel := default (cfg_panningModel base) (opt_panningModel c);
     cfg_distanceModel :=
       default (cfg_distanceModel base) (opt_distanceModel c) |}.

(** The state and the refs of [useSpatialAudio]. *)
Record State := mkState {
  status : SpatialAudioStatus;
  position : Position3D;
  gain : Q;
  nodesRef : option SpatialAudioNodes;
  streamRef : option MediaStream
}.

Definition setStatus (v : SpatialAudioStatus) : Js (Host * State) unit :=
  write (fun s => mkState v (position s) (gain s) (nodesRef s) (streamRef s)).
Definition setPositionState (v : Position3D) : Js (Host * State) unit :=
  write (fun s => mkState (status s) v (gain s) (nodesRef s) (streamRef s)).
Definition setGainState (v : Q) : Js (Host * State) unit :=
  write (fun s => mkState (status s) (position s) v (nodesRef s) (streamRef s)).
Definition setNodesRef (v : option SpatialAudioNodes)
  : Js (Host * State) unit :=
  write (fun s => mkState (status s) (position s) (gain s) v (streamRef s)).
Definition setStreamRef (v : option MediaStream) : Js (Host * State) unit :=
  write (fun s => mkState (status s) (position s) (gain s) (nodesRef s) v).

(** The hook at its first render. *)
Definition initial (options : UseSpatialAudioOptions) : State :=
  {| status := idle;
     position := {| x := 0; y := 0; z := 1 |};
     gain := initialGain options;
     nodesRef := None;
     streamRef := None |}.

(** [const initialize = useCallback(async () => ...)] *)
Definition initialize (options : UseSpatialAudioOptions) (env : AudioEnv)
  : Js (Host * State) bool :=
  let* nodes := read nodesRef in
  match nodes with
  | Some _ => ret true
  | None =>
      setStatus initializing;;
      try_catch
        (let* context := onHost (createAudioContext env) in
         onHost (resumeAudioContext env context);;
         let mergedConfig := mergeConfig DEFAULT_CONFIG (config options) in
         let* panner := onHost (createPannerNode context mergedConfig) in
         let* gainNode :=
           onHost (createGainNode context (initialGain options)) in
         onHost (setListenerPosition env context
                   {| x := 0; y := 0; z := 0 |}
                   {| x := 0; y := 0; z := -1 |}
                   {| x := 0; y := 1; z := 0 |});;
         setNodesRef (Some {| context := context;
                              source := None;
                              panner := panner;
                              gain_node := gainNode |});;
         setStatus ready;;
         ret true)
        (fun _ => setStatus error;; ret false)
  end.

(** [const connectStream = useCallback((stream) => ...)] *)
Definition connectStream (stream : MediaStream) : Js (Host * State) unit :=
  let* nodes := read nodesRef in
  match nodes with
  | None => ret tt
  | Some n =>
      match source n with
      | Some _ => onHost (disconnectAudioGraph n)
      | None => ret tt
      end;;
      let* src := onHost (createMediaStreamSource (context n) stream) in
      let n' := mkNodes (context n) (Some src) (panner n) (gain_node n) in
      setNodesRef (Some n');;
      setStreamRef (Some stream);;
      onHost (connectAudioGraph n');;
      setStatus active
  end.

(** [const disconnectStream = useCallback(() => ...)] *)
Definition disconnectStream : Js (Host * State) unit :=
  let* nodes := read nodesRef in
  match nodes with
  | None => ret tt
  | Some n =>
      match source n with
      | None => ret tt
      | Some _ =>
          onHost (disconnectAudioGraph n);;
          setNodesRef (Some (mkNodes (context n) None (panner n) (gain_node n)));;
          setStreamRef None;;
          setStatus ready
      end
  end.

(** [const setPosition = useCallback((x, y, height = 0) => ...)] *)
Definition setPosition (px py : Q) (height : option Q)
  : Js (Host * State) unit :=
  let* nodes := read nodesRef in
  match nodes with
  | None => ret tt
  | Some n =>
      let pos := padToPosition3D px py (default 0 height) in
      onHost (updateSourcePosition (panner n) pos 5);;
      setPositionState pos
  end.

(** [const setGain = useCallback((value) => ...)] *)
Definition setGain (value : Q) : Js (Host * State) unit :=
  let* nodes := read nodesRef in
  match nodes with
  | None => ret tt
  | Some n =>
      onHost (updateGain (gain_node n) value);;
      setGainState value
  end.

(** [const cleanup = useCallback(() => ...)] *)
Definition cleanup : Js (Host * State) unit :=
  let* nodes := read nodesRef in
  match nodes with
  | None => ret tt
  | Some n =>
      match source n with
      | Some _ => onHost (disconnectAudioGraph n)
      | None => ret tt
      end;;
      onHost (closeAudioContext (context n));;
      setNodesRef None;;
      setStreamRef None;;
      setStatus idle
  end.

(** The clean-up function of the unmount effect. *)
Definition unmount : Js (Host * State) unit :=
  let* nodes := read nodesRef in
  match nodes with
  | Some _ => cleanup
  | None => ret tt
  end.

End SpatialAudio.

(** ** use-tab-audio-capture.ts *)

Module Capture.

(** [type CaptureStatus] *)
Inductive CaptureStatus := idle | requesting | capturing | error.

(** [type CaptureError] *)
Inductive CaptureError := not_supported | permission_denied | no_audio | unknown.

(** The hook exists twice: under the player's [hooks/] directory, where the
    captured stream is used as it is, and under [src/hooks/], where the video
    tracks are stopped and an audio-only stream is built. *)
Inductive Variant := player_hook | shared_hook.

(** [function getErrorMessage(error)] *)
Definition getErrorMessage (e : CaptureError) : string :=
  match e with
  | not_supported =>
      "このブラウザはタブ音声キャプチャに対応していません。Chrome または Edge をお使いください。"
  | permission_denied =>
      "タブの共有が拒否されました。3D音響を使用するには、タブの共有を許可してください。"
  | no_audio =>
      "音声トラックが取得できませんでした。タブを選択する際に「タブの音声を共有する」を有効にしてください。"
  | unknown => "予期しないエラーが発生しました。"
  end.

(** The state and the ref of [useTabAudioCapture]. *)
Record State := mkState {
  status : CaptureStatus;
  error_ : option CaptureError;
  stream : option MediaStream;
  isSupported : bool;
  streamRef : option MediaStream
}.

Definition setStatus (v : CaptureStatus) : Js (Host * State) unit :=
  write (fun s => mkState v (error_ s) (stream s) (isSupported s) (streamRef s)).
Definition setError (v : option CaptureError) : Js (Host * State) unit :=
  write (fun s => mkState (status s) v (stream s) (isSupported s) (streamRef s)).
Definition setStream (v : option MediaStream) : Js (Host * State) unit :=
  write (fun s => mkState (status s) (error_ s) v (isSupported s) (streamRef s)).
Definition setIsSupported (v : bool) : Js (Host * State) unit :=
  write (fun s => mkState (status s) (error_ s) (stream s) v (streamRef s)).
Definition setStreamRef (v : option MediaStream) : Js (Host * State) unit :=
  write (fun s => mkState (status s) (error_ s) (stream s) (isSupported s) v).

(** The hook at its first render: supported until the check has run. *)
Definition initial : State :=
  {| status := idle;
     error_ := None;
     stream := None;
     isSupported := true;
     streamRef := None |}.

(** The effect that checks the browser, once, on the client. *)
Definition checkSupport : Js (Host * State) unit :=
  let* supported := onHost (gets has_getDisplayMedia) in
  setIsSupported supported.

(** [errorMessage: error ? getErrorMessage(error) : null] *)
Definition errorMessage (s : State) : option string :=
  getErrorMessage <$> error_ s.

(** The classification in the [catch] block of [startCapture]. *)
Definition classify (err : Thrown) : CaptureError :=
  match err with
  | ErrorObject name =>
      if (String.eqb name "NotAllowedError"
          || String.eqb name "PermissionDeniedError")%bool
      then permission_denied
      else if String.eqb name "NotFoundError" then no_audio
      else unknown
  | NonError => unknown
  end.

(** The listener [startCapture] puts on the first audio track. *)
Definition onEnded : Js (Host * State) unit :=
  setStatus idle;;
  setStream None;;
  setStreamRef None.

(** [const startCapture = useCallback(async () => ...)] *)
Definition startCapture (v : Variant) (o : DisplayMediaOutcome)
  : Js (Host * State) (option MediaStream) :=
  let* supported := read isSupported in
  if negb supported then
    setStatus error;;
    setError (Some not_supported);;
    ret None
  else
    let* current := read streamRef in
    match current with
    | Some s => ret (Some s)
    | None =>
        setStatus requesting;;
        setError None;;
        try_catch
          (let* mediaStream := onHost (getDisplayMedia o) in
           match audioTracks mediaStream with
           | [] =>
               onHost (forEach stopTrack (getTracks mediaStream));;
               setStatus error;;
               setError (Some no_audio);;
               ret None
           | first :: _ =>
               let* used :=
                 match v with
                 | player_hook => ret mediaStream
                 | shared_hook =>
                     onHost (forEach stopTrack (videoTracks mediaStream));;
                     onHost (newMediaStream (audioTracks mediaStream))
                 end in
               onHost (addEndedListener first);;
               setStreamRef (Some used);;
               setStream (Some used);;
               setStatus capturing;;
               ret (Some used)
           end)
          (fun err =>
             setError (Some (classify err));;
             setStatus error;;
             ret None)
    end.

(** [const stopCapture = useCallback(() => ...)] *)
Definition stopCapture : Js (Host * State) unit :=
  let* current := read streamRef in
  match current with
  | Some s =>
      onHost (forEach stopTrack (getTracks s));;
      setStreamRef None
  | None => ret tt
  end;;
  setStream None;;
  setStatus idle;;
  setError None.

(** The browser ends track [t] by itself (the user revokes the sharing):
    a live track becomes ended and its 'ended' listener runs.  A track that
    was stopped by [track.stop()] fires no event. *)
Definition trackEnded (t : nat) : Js (Host * State) unit :=
  let* st := onHost (gets (fun h => tracks h !! t)) in
  match st with
  | Some live =>
      onHost (stopTrack t);;
      let* ls := onHost (gets listeners) in
      if bool_decide (t ∈ ls) then onEnded else ret tt
  | _ => ret tt
  end.

End Capture.

(** ** AudioControls.tsx: what the user is shown *)

Module Controls.

(** [function getStatusText(captureStatus, spatialStatus)] *)
Definition getStatusText (captureStatus : Capture.CaptureStatus)
    (spatialStatus : SpatialAudio.SpatialAudioStatus) : string :=
  match captureStatus, spatialStatus with
  | Capture.error, _ => "エラー"
  | Capture.requesting, _ => "許可を待っています..."
  | _, SpatialAudio.initializing => "初期化中..."
  | _, SpatialAudio.active => "3D音響有効"
  | _, SpatialAudio.ready => "準備完了"
  | _, _ => "待機中"
  end.

(** [const isActive = spatialStatus === "active"] *)
Definition isActive (spatialStatus : SpatialAudio.SpatialAudioStatus) : bool :=
  match spatialStatus with SpatialAudio.active => true | _ => false end.

(** [const isLoading = captureStatus === "requesting" ||
     spatialStatus === "initializing"] *)
Definition isLoading (captureStatus : Capture.CaptureStatus)
    (spatialStatus : SpatialAudio.SpatialAudioStatus) : bool :=
  (match captureStatus with Capture.requesting => true | _ => false end
   || match spatialStatus with SpatialAudio.initializing => true | _ => false end)%bool.

(** [const canStart = isSupported && !isActive && !isLoading] *)
Definition canStart (isSupported : bool)
    (captureStatus : Capture.CaptureStatus)
    (spatialStatus : SpatialAudio.SpatialAudioStatus) : bool :=
  (isSupported && negb (isActive spatialStatus)
   && negb (isLoading captureStatus spatialStatus))%bool.

(** [const canStop = isActive] *)
Definition canStop (spatialStatus : SpatialAudio.SpatialAudioStatus) : bool :=
  isActive spatialStatus.

End Controls.

(** ** CustomAsmrPlayer.tsx: the orchestration layer *)

Module Player.

(** The page: the browser and the two hooks of the player. *)
Record World := mkWorld {
  host : Host;
  spatial : SpatialAudio.State;
  capture : Capture.State
}.

Definition onSpatial {A} (m : Js (Host * SpatialAudio.State) A) : Js World A :=
  zoom (fun w => (host w, spatial w))
       (fun hs w => mkWorld hs.1 hs.2 (capture w)) m.

Definition onCapture {A} (m : Js (Host * Capture.State) A) : Js World A :=
  zoom (fun w => (host w, capture w))
       (fun hc w => mkWorld hc.1 (spatial w) hc.2) m.

(** The player calls [useSpatialAudio()] without options. *)
Definition options : SpatialAudio.UseSpatialAudioOptions :=
  SpatialAudio.default_options.

(** The page at its first render, in browser [h]. *)
Definition mount (h : Host) : World :=
  {| host := h;
     spatial := SpatialAudio.initial options;
     capture := Capture.initial |}.

(** The page once the support check of the capture hook has run. *)
Definition mounted (h : Host) : World :=
  exec (onCapture Capture.checkSupport) (mount h).

(** [const handleStart = useCallback(async () => ...)]; [v] tells which copy
    of the capture hook the page imports. *)
Definition handleStart (v : Capture.Variant) (env : AudioEnv)
    (o : DisplayMediaOutcome) : Js World unit :=
  let* initialized := onSpatial (SpatialAudio.initialize options env) in
  if negb initialized then ret tt
  else
    let* stream := onCapture (Capture.startCapture v o) in
    match stream with
    | None => ret tt
    | Some s => onSpatial (SpatialAudio.connectStream s)
    end.

(** [const handleStop = useCallback(() => ...)] *)
Definition handleStop : Js World unit :=
  onSpatial SpatialAudio.disconnectStream;;
  onCapture Capture.stopCapture;;
  onSpatial SpatialAudio.cleanup.

(** [const handlePositionChange = useCallback((x, y) => ...)] *)
Definition handlePositionChange (x y : Q) : Js World unit :=
  onSpatial (SpatialAudio.setPosition x y (Some 0)).

(** What [AudioControls] and [PositionPad] receive from the player. *)
Record Display := mkDisplay {
  statusText : string;
  errorText : option string;
  startEnabled : bool;
  stopEnabled : bool;
  padDisabled : bool
}.

Definition display (w : World) : Display :=
  let captureStatus := Capture.status (capture w) in
  let spatialStatus := SpatialAudio.status (spatial w) in
  {| statusText := Controls.getStatusText captureStatus spatialStatus;
     errorText := Capture.errorMessage (capture w);
     startEnabled :=
       Controls.canStart (Capture.isSupported (capture w))
                         captureStatus spatialStatus;
     stopEnabled := Controls.canStop spatialStatus;
     padDisabled := negb (Controls.isActive spatialStatus) |}.

End Player.

(** ** PositionPad.tsx: the coordinate mapper of the pad *)

Module Pad.
Import Num.

(** [interface Position] *)
Record Position := mkPosition { x : Q; y : Q }.

(** [function pixelToNormalized(pixelX, pixelY, width, height)] *)
Definition pixelToNormalized (pixelX pixelY width height : Q) : Position :=
  let x := (pixelX / width) * 2 - 1 in
  let y := - ((pixelY / height) * 2 - 1) in
  {| x := Math_max (-1) (Math_min 1 x);
     y := Math_max (-1) (Math_min 1 y) |}.

(** [function normalizedToPercent(pos)], before the two numbers are printed
    with a percent sign. *)
Definition normalizedToPercent (pos : Position) : Q * Q :=
  let left := ((x pos + 1) / 2) * 100 in
  let top := ((- y pos + 1) / 2) * 100 in
  (left, top).

End Pad.

(** ** The hooks as transition systems *)

Module Reach.

(** One event on the engine hook: a call of one of its operations, or
    anything else happening in the browser. *)
Inductive engine_step (options : SpatialAudio.UseSpatialAudioOptions)
  : Host * SpatialAudio.State -> Host * SpatialAudio.State -> Prop :=
| step_initialize env w :
    engine_step options w (exec (SpatialAudio.initialize options env) w)
| step_connectStream stream w :
    engine_step options w (exec (SpatialAudio.connectStream stream) w)
| step_disconnectStream w :
    engine_step options w (exec SpatialAudio.disconnectStream w)
| step_setPosition px py height w :
    engine_step options w (exec (SpatialAudio.setPosition px py height) w)
| step_setGain value w :
    engine_step options w (exec (SpatialAudio.setGain value) w)
| step_cleanup w :
    engine_step options w (exec SpatialAudio.cleanup w)
| step_engine_host h' w :
    engine_step options w (h', w.2).

(** The states the engine hook reaches from its first render in [h0]. *)
Definition engine_reachable (options : SpatialAudio.UseSpatialAudioOptions)
    (h0 : Host) : Host * SpatialAudio.State -> Prop :=
  rtc (engine_step options) (h0, SpatialAudio.initial options).

(** What every reachable state of the engine hook satisfies: no nodes when
    idle or in error, nodes without a source when ready, nodes with a source
    when active. *)
Definition engine_inv (s : SpatialAudio.State) : Prop :=
  match SpatialAudio.nodesRef s with
  | None =>
      SpatialAudio.status s = SpatialAudio.idle \/
      SpatialAudio.status s = SpatialAudio.error
  | Some n =>
      match Engine.source n with
      | None => SpatialAudio.status s = SpatialAudio.ready
      | Some _ => SpatialAudio.status s = SpatialAudio.active
      end
  end.

(** One event on the capture hook.  The rest of the page changes the browser
    store, but not what the browser supports. *)
Inductive capture_step : Host * Capture.State -> Host * Capture.State -> Prop :=
| step_checkSupport w :
    capture_step w (exec Capture.checkSupport w)
| step_startCapture v o w :
    capture_step w (exec (Capture.startCapture v o) w)
| step_stopCapture w :
    capture_step w (exec Capture.stopCapture w)
| step_trackEnded t w :
    capture_step w (exec (Capture.trackEnded t) w)
| step_capture_host h' w :
    has_getDisplayMedia h' = has_getDisplayMedia w.1 ->
    capture_step w (h', w.2).

(** What every reachable state of the capture hook satisfies: [isSupported]
    is still the default or what the browser says, and a stream is only
    held in a browser that has [getDisplayMedia]. *)
Definition capture_inv (w : Host * Capture.State) : Prop :=
  (Capture.isSupported w.2 = true \/
   Capture.isSupported w.2 = has_getDisplayMedia w.1) /\
  (Capture.streamRef w.2 <> None -> has_getDisplayMedia w.1 = true).

(** The states the capture hook reaches from its first render in [h0]. *)
Definition capture_reachable (h0 : Host) : Host * Capture.State -> Prop :=
  rtc capture_step (h0, Capture.initial).

End Reach.

(** A browser in which nothing has been created yet. *)
Definition blank (getDisplayMedia_exists : bool) : Host :=
  {| next_id := 0;
     contexts := ∅;
     nodes := ∅;
     edges := [];
     timeline := [];
     currentTime := 0;
     tracks := ∅;
     listeners := [];
     prompts := 0;
     has_getDisplayMedia := getDisplayMedia_exists |}.

(** A browser that creates a running context and exposes the listener's
    parameters. *)
Definition friendly : AudioEnv :=
  {| context_available := true;
     starts_suspended := false;
     resume_succeeds := true;
     listener_has_position := true;
     listener_has_forward := true |}.

(** ** Track states in bulk *)

(** The track store after every track of [ts] has been given state [st]. *)
Fixpoint markAll (st : TrackState) (ts : list nat)
    (m : gmap nat TrackState) : gmap nat TrackState :=
  match ts with
  | [] => m
  | t :: ts' => markAll st ts' (<[t := st]> m)
  end.

(** ** PositionPad.tsx: the component *)

Module PositionPad.

(** [padRef.current.getBoundingClientRect()] *)
Record DOMRect := mkRect { left : Q; top : Q; width : Q; height : Q }.

(** The state of [PositionPad]. *)
Record State := mkState {
  position : Pad.Position;
  isDragging : bool
}.

(** [initialPosition = { x: 0, y: 0.5 }] *)
Definition default_initialPosition : Pad.Position :=
  {| Pad.x := 0; Pad.y := 0.5 |}.

(** The component at its first render. *)
Definition initial (initialPosition : Pad.Position) : State :=
  {| position := initialPosition; isDragging := false |}.

Definition setPosition {W} (v : Pad.Position) : Js (W * State) unit :=
  modify (fun s => (s.1, mkState v (isDragging s.2))).
Definition setIsDragging {W} (v : bool) : Js (W * State) unit :=
  modify (fun s => (s.1, mkState (position s.2) v)).

(** A call of a prop of the component: it runs on the state [W] of the
    parent. *)
Definition callProp {W A} (m : Js W A) : Js (W * State) A :=
  zoom fst (fun w s => (w, s.2)) m.

(** [const updatePosition = useCallback((clientX, clientY) => ...)]; [rect]
    is [None] while [padRef.current] is null. *)
Definition updatePosition {W} (onPositionChange : option (Q -> Q -> Js W unit))
    (rect : option DOMRect) (clientX clientY : Q) : Js (W * State) unit :=
  match rect with
  | None => ret tt
  | Some r =>
      let x := clientX - left r in
      let y := clientY - top r in
      let newPos := Pad.pixelToNormalized x y (width r) (height r) in
      setPosition newPos;;
      match onPositionChange with
      | Some f => callProp (f (Pad.x newPos) (Pad.y newPos))
      | None => ret tt
      end
  end.

(** [const handlePointerDown = useCallback((e) => ...)] *)
Definition handlePointerDown {W}
    (onPositionChange : option (Q -> Q -> Js W unit)) (disabled : bool)
    (rect : option DOMRect) (clientX clientY : Q) : Js (W * State) unit :=
  if disabled then ret tt
  else
    setIsDragging true;;
    updatePosition onPositionChange rect clientX clientY.

(** [const handlePointerMove = useCallback((e) => ...)] *)
Definition handlePointerMove {W}
    (onPositionChange : option (Q -> Q -> Js W unit)) (disabled : bool)
    (rect : option DOMRect) (clientX clientY : Q) : Js (W * State) unit :=
  let* dragging := gets (fun s => isDragging s.2) in
  if (negb dragging || disabled)%bool then ret tt
  else updatePosition onPositionChange rect clientX clientY.

(** [const handlePointerUp = useCallback((e) => ...)], also the handler of
    [onPointerLeave]. *)
Definition handlePointerUp {W} : Js (W * State) unit :=
  setIsDragging false.

(** [const markerStyle = normalizedToPercent(position)] *)
Definition markerStyle (s : State) : Q * Q :=
  Pad.normalizedToPercent (position s).

(** What the pointer does on the pad. *)
Inductive PointerEvent :=
| PointerDown (clientX clientY : Q)
| PointerMove (clientX clientY : Q)
| PointerUp.

Definition handle {W} (onPositionChange : option (Q -> Q -> Js W unit))
    (disabled : bool) (rect : option DOMRect) (e : PointerEvent)
  : Js (W * State) unit :=
  match e with
  | PointerDown cx cy => handlePointerDown onPositionChange disabled rect cx cy
  | PointerMove cx cy => handlePointerMove onPositionChange disabled rect cx cy
  | PointerUp => handlePointerUp
  end.

(** A parent that only writes down what [onPositionChange] receives. *)
Definition logPosition (x y : Q) : Js (list (Q * Q)) unit :=
  modify (fun calls => calls ++ [(x, y)]).

End PositionPad.

(** ** The pad inside the player *)

Module Page.

(** [<PositionPad onPositionChange={handlePositionChange}
     disabled={spatialStatus !== "active"} .../>] *)
Definition padEvent (rect : option PositionPad.DOMRect)
    (e : PositionPad.PointerEvent)
  : Js (Player.World * PositionPad.State) unit :=
  fun ws =>
    PositionPad.handle (Some Player.handlePositionChange)
      (Player.padDisabled (Player.display ws.1)) rect e ws.

End Page.

(** ** YouTubePlayer.tsx: the video id of a URL

    A string is a sequence of characters as in [String.string]; the two
    patterns only name ASCII characters. *)

Module YouTube.

(** The class [[a-zA-Z0-9_-]] *)
Definition isIdChar (c : Ascii.ascii) : bool :=
  let n := Ascii.nat_of_ascii c in
  ((97 <=? n)%nat && (n <=? 122)%nat
   || (65 <=? n)%nat && (n <=? 90)%nat
   || (48 <=? n)%nat && (n <=? 57)%nat
   || (n =? 95)%nat
   || (n =? 45)%nat)%bool.

(** [([a-zA-Z0-9_-]{n})] at the start of [s]: the group and what follows. *)
Fixpoint idChars (n : nat) (s : string) : option (string * string) :=
  match n with
  | O => Some (EmptyString, s)
  | S n' =>
      match s with
      | String c s' =>
          if isIdChar c then
            match idChars n' s' with
            | Some (v, r) => Some (String c v, r)
            | None => None
            end
          else None
      | EmptyString => None
      end
  end.

(** A literal at the start of [s]: what follows it. *)
Fixpoint literal (p s : string) : option string :=
  match p with
  | EmptyString => Some s
  | String c p' =>
      match s with
      | String d s' => if Ascii.eqb c d then literal p' s' else None
      | EmptyString => None
      end
  end.

(** The alternatives of the first pattern, in their order. *)
Definition alternatives : list string :=
  ["youtube.com/watch?v="; "youtu.be/"; "youtube.com/embed/"]%string.

(** The first pattern tried at the start of [s]: the alternatives in order,
    each followed by the group of 11 characters. *)
Fixpoint matchHere (ps : list string) (s : string) : option string :=
  match ps with
  | [] => None
  | p :: ps' =>
      match literal p s ≫= idChars 11 with
      | Some (v, _) => Some v
      | None => matchHere ps' s
      end
  end.

(** The first pattern has no anchor: the leftmost position that matches. *)
Fixpoint matchUrl (s : string) : option string :=
  match matchHere alternatives s with
  | Some v => Some v
  | None =>
      match s with
      | String _ s' => matchUrl s'
      | EmptyString => None
      end
  end.

(** The second pattern, [/^([a-zA-Z0-9_-]{11})$/]. *)
Definition matchBareId (s : string) : option string :=
  match idChars 11 s with
  | Some (v, EmptyString) => Some v
  | _ => None
  end.

(** Eleven characters of the class, and nothing else. *)
Fixpoint allIdChars (s : string) : bool :=
  match s with
  | EmptyString => true
  | String c s' => (isIdChar c && allIdChars s')%bool
  end.

Definition isVideoId (v : string) : Prop :=
  String.length v = 11%nat /\ allIdChars v = true.

(** [c] does not occur in [s]. *)
Fixpoint freeOf (c : Ascii.ascii) (s : string) : bool :=
  match s with
  | EmptyString => true
  | String d s' => (negb (Ascii.eqb c d) && freeOf c s')%bool
  end.

(** [function extractVideoId(url)] *)
Definition extractVideoId (url : string) : option string :=
  match matchUrl url with
  | Some v => Some v
  | None => matchBareId url
  end.

End YouTube.

(** * Properties *)

(** ** Clamping *)

Section Clamp.
Import Num.

Lemma clamp_lower lo hi v : lo <= Math_max lo (Math_min hi v).
Proof. apply Q.le_max_l. Qed.

Lemma clamp_upper lo hi v : lo <= hi -> Math_max lo (Math_min hi v) <= hi.
Proof.
  intros Hlh. unfold Math_max, Math_min.
  apply Q.max_lub; [exact Hlh | apply Q.le_min_l].
Qed.

Lemma clamp_inside lo hi v :
  lo <= v -> v <= hi -> Math_max lo (Math_min hi v) == v.
Proof.
  intros Hlo Hhi. unfold Math_max, Math_min.
  rewrite (Q.min_r hi v) by exact Hhi.
  apply Q.max_r. exact Hlo.
Qed.

Lemma clamp_below lo hi v :
  lo <= hi -> v <= lo -> Math_max lo (Math_min hi v) == lo.
Proof.
  intros Hlh Hv. unfold Math_max, Math_min.
  apply Q.max_l. apply Qle_trans with v; [apply Q.le_min_r | exact Hv].
Qed.

Lemma clamp_above lo hi v :
  lo <= hi -> hi <= v -> Math_max lo (Math_min hi v) == hi.
Proof.
  intros Hlh Hv. unfold Math_max, Math_min.
  rewrite (Q.min_l hi v) by exact Hv.
  apply Q.max_r. exact Hlh.
Qed.

End Clamp.

(** ** Symbolic execution of the hooks *)

(** Unfolds the monad, the browser primitives and the hook operations, and
    leaves alone the finite maps, the lists, the rationals and what recurses
    ([newTracks], [forEach] and [getDisplayMedia], which calls them).  The
    records of the state are to be given by their constructors. *)
Declare Reduction js_cbv :=
  cbv beta iota zeta delta
    [result exec bind ret throw try_catch gets modify zoom
     onHost read write fst snd negb orb andb default from_option
     Host.fresh Host.record Host.connect Host.disconnect Host.stopTrack
     Host.newMediaStream Host.addEndedListener Host.getTracks
     Host.stream_id Host.audioTracks Host.videoTracks
     with_next_id with_contexts with_nodes with_edges with_timeline
     with_tracks with_listeners with_prompts
     next_id contexts nodes edges timeline currentTime tracks listeners
     prompts has_getDisplayMedia
     context_available starts_suspended resume_succeeds
     listener_has_position listener_has_forward
     Engine.createAudioContext Engine.resumeAudioContext
     Engine.createPannerNode Engine.createGainNode
     Engine.createMediaStreamSource Engine.connectAudioGraph
     Engine.disconnectAudioGraph Engine.updateSourcePosition
     Engine.updateGain Engine.setListenerPosition Engine.closeAudioContext
     Engine.context Engine.source Engine.panner Engine.gain_node
     SpatialAudio.setStatus SpatialAudio.setPositionState
     SpatialAudio.setGainState SpatialAudio.setNodesRef
     SpatialAudio.setStreamRef SpatialAudio.initial
     SpatialAudio.initialize SpatialAudio.connectStream
     SpatialAudio.disconnectStream SpatialAudio.setPosition
     SpatialAudio.setGain SpatialAudio.cleanup SpatialAudio.unmount
     SpatialAudio.status SpatialAudio.position SpatialAudio.gain
     SpatialAudio.nodesRef SpatialAudio.streamRef
     SpatialAudio.default_options SpatialAudio.initialGain
     SpatialAudio.config
     Capture.setStatus Capture.setError Capture.setStream
     Capture.setIsSupported Capture.setStreamRef Capture.initial
     Capture.checkSupport Capture.onEnded Capture.startCapture
     Capture.stopCapture Capture.trackEnded
     Capture.status Capture.error_ Capture.stream Capture.isSupported
     Capture.streamRef
     Player.onSpatial Player.onCapture Player.mount Player.mounted
     Player.handleStart Player.handleStop Player.handlePositionChange
     Player.host Player.spatial Player.capture Player.options].

Ltac js_run :=
  match goal with
  | |- ?G => let G' := eval js_cbv in G in change G'
  end.

Ltac js_run_in H :=
  let T := type of H in
  let T' := eval js_cbv in T in
  change T' in H.

(** ** The coordinate mapper *)

Section CoordinateMapper.
Import Num.

(** C2: [padToPosition3D(x, y, h)] has [x] for its lateral component, [h]
    for its vertical component and exactly [-y] for its depth. *)
Theorem padToPosition3D_components (px py h : Q) :
  Engine.x (Engine.padToPosition3D px py h) = px /\
  Engine.y (Engine.padToPosition3D px py h) = h /\
  Engine.z (Engine.padToPosition3D px py h) = - py.
Proof. repeat split. Qed.

(** The depth cancels the pad's forward coordinate. *)
Lemma padToPosition3D_depth_cancels (px py h : Q) :
  Engine.z (Engine.padToPosition3D px py h) + py == 0.
Proof. cbn. lra. Qed.

(** Where a pixel coordinate falls before clamping: [p / size * 2 - 1]. *)
Lemma scaled_inside (p size : Q) :
  0 < size -> 0 <= p -> p <= size ->
  -1 <= (p / size) * 2 - 1 /\ (p / size) * 2 - 1 <= 1.
Proof.
  intros Hs H0 H1.
  assert (0 <= p / size) by (apply Qle_shift_div_l; [exact Hs | lra]).
  assert (p / size <= 1) by (apply Qle_shift_div_r; [exact Hs | lra]).
  split; lra.
Qed.

Lemma scaled_before (p size : Q) :
  0 < size -> p <= 0 -> (p / size) * 2 - 1 <= -1.
Proof.
  intros Hs H0.
  assert (p / size <= 0) by (apply Qle_shift_div_r; [exact Hs | lra]).
  lra.
Qed.

Lemma scaled_after (p size : Q) :
  0 < size -> size <= p -> 1 <= (p / size) * 2 - 1.
Proof.
  intros Hs H1.
  assert (1 <= p / size) by (apply Qle_shift_div_l; [exact Hs | lra]).
  lra.
Qed.

(** One axis of the pad: the clamped value for a pixel inside the surface,
    before it, and after it. *)
Lemma axis_range (v : Q) :
  -1 <= Math_max (-1) (Math_min 1 v) /\ Math_max (-1) (Math_min 1 v) <= 1.
Proof. split; [apply clamp_lower | apply clamp_upper; lra]. Qed.

Lemma axis_inside (p size : Q) :
  0 < size -> 0 <= p -> p <= size ->
  Math_max (-1) (Math_min 1 ((p / size) * 2 - 1)) == (p / size) * 2 - 1.
Proof.
  intros Hs H0 H1. apply clamp_inside; apply (scaled_inside _ _ Hs H0 H1).
Qed.

Lemma axis_inside_flipped (p size : Q) :
  0 < size -> 0 <= p -> p <= size ->
  Math_max (-1) (Math_min 1 (- ((p / size) * 2 - 1))) == 1 - (p / size) * 2.
Proof.
  intros Hs H0 H1. destruct (scaled_inside _ _ Hs H0 H1) as [Ha Hb].
  rewrite clamp_inside; lra.
Qed.

(** C5: on a surface of positive size, [pixelToNormalized] answers every
    pixel position with coordinates in [-1, 1]; inside the surface the
    answer is the centred position with the vertical axis turned upwards,
    and outside it is the nearest bound. *)
Theorem pixelToNormalized_clamped (pixelX pixelY width height : Q) :
  0 < width -> 0 < height ->
  let p := Pad.pixelToNormalized pixelX pixelY width height in
  (-1 <= Pad.x p /\ Pad.x p <= 1 /\ -1 <= Pad.y p /\ Pad.y p <= 1) /\
  (0 <= pixelX -> pixelX <= width -> Pad.x p == (pixelX / width) * 2 - 1) /\
  (0 <= pixelY -> pixelY <= height -> Pad.y p == 1 - (pixelY / height) * 2) /\
  (pixelX <= 0 -> Pad.x p == -1) /\
  (width <= pixelX -> Pad.x p == 1) /\
  (pixelY <= 0 -> Pad.y p == 1) /\
  (height <= pixelY -> Pad.y p == -1).
Proof.
  intros Hw Hh p. subst p. unfold Pad.pixelToNormalized. cbn [Pad.x Pad.y].
  assert (H11 : -1 <= 1) by lra.
  split; [|split; [|split; [|split; [|split; [|split]]]]].
  - repeat split; apply axis_range.
  - intros H0 H1. apply axis_inside; assumption.
  - intros H0 H1. apply axis_inside_flipped; assumption.
  - intros H0. apply clamp_below; [exact H11 | apply scaled_before; assumption].
  - intros H1. apply clamp_above; [exact H11 | apply scaled_after; assumption].
  - intros H0. pose proof (scaled_before _ _ Hh H0).
    apply clamp_above; [exact H11 | lra].
  - intros H1. pose proof (scaled_after _ _ Hh H1).
    apply clamp_below; [exact H11 | lra].
Qed.

(** A pointer that overshoots a 200 by 100 surface to the left and below. *)
Lemma pixelToNormalized_clamped_witness :
  let p := Pad.pixelToNormalized (-30) 500 200 100 in
  (-1 <= Pad.x p /\ Pad.x p <= 1 /\ -1 <= Pad.y p /\ Pad.y p <= 1) /\
  Pad.x p == -1 /\ Pad.y p == -1.
Proof.
  destruct (pixelToNormalized_clamped (-30) 500 200 100)
    as (Hrange & _ & _ & Hleft & _ & _ & Hbelow); [reflexivity | reflexivity |].
  split; [exact Hrange | split].
  - apply Hleft. discriminate.
  - apply Hbelow. discriminate.
Defined.

(** The centre of the surface is the origin. *)
Lemma pixelToNormalized_centre (width height : Q) :
  0 < width -> 0 < height ->
  Pad.x (Pad.pixelToNormalized (width / 2) (height / 2) width height) == 0 /\
  Pad.y (Pad.pixelToNormalized (width / 2) (height / 2) width height) == 0.
Proof.
  intros Hw Hh. unfold Pad.pixelToNormalized. cbn [Pad.x Pad.y].
  assert (Hcw : (width / 2) / width == 1 # 2) by (field; lra).
  assert (Hch : (height / 2) / height == 1 # 2) by (field; lra).
  set (rw := (width / 2) / width) in *.
  set (rh := (height / 2) / height) in *.
  split; rewrite clamp_inside; lra.
Qed.

(** [normalizedToPercent] puts the origin at 50%, 50% and the corner
    [(1, 1)] at 100%, 0%. *)
Lemma normalizedToPercent_corners :
  (Pad.normalizedToPercent (Pad.mkPosition 0 0)).1 == 50 /\
  (Pad.normalizedToPercent (Pad.mkPosition 0 0)).2 == 50 /\
  (Pad.normalizedToPercent (Pad.mkPosition 1 1)).1 == 100 /\
  (Pad.normalizedToPercent (Pad.mkPosition 1 1)).2 == 0.
Proof. repeat split. Qed.

End CoordinateMapper.

(** ** The engine hook *)

Section EngineHook.
Import Engine SpatialAudio Reach.

(** The first guard of [initialize]. *)
Lemma initialize_with_nodes (options : UseSpatialAudioOptions)
    (env : AudioEnv) (h : Host) (s : State) (n : SpatialAudioNodes) :
  nodesRef s = Some n ->
  initialize options env (h, s) = (Normal true, (h, s)).
Proof.
  intros Hn. unfold initialize, bind, read, gets. cbn [snd]. rewrite Hn.
  reflexivity.
Qed.

(** C6: [initialize] on an engine whose nodes exist returns [true] and
    changes nothing, whatever the browser would answer. *)
Theorem initialize_idempotent (options : UseSpatialAudioOptions)
    (env : AudioEnv) (w : Host * State) (n : SpatialAudioNodes) :
  nodesRef w.2 = Some n ->
  initialize options env w = (Normal true, w).
Proof.
  destruct w as [h s]. cbn [snd]. apply initialize_with_nodes.
Qed.

(** The engine of the player after one successful [initialize], initialized
    again under a browser that would refuse a new context. *)
Lemma initialize_idempotent_witness :
  let w := exec (initialize default_options friendly)
                (blank true, initial default_options) in
  initialize default_options (mkAudioEnv false false false false false) w
  = (Normal true, w).
Proof.
  apply (initialize_idempotent _ _ _ (mkNodes 0 None 1 2)). reflexivity.
Defined.

(** What a successful [initialize] leaves behind. *)
Lemma initialize_success (options : UseSpatialAudioOptions) (env : AudioEnv)
    (h : Host) (s : State) :
  nodesRef s = None ->
  result (initialize options env) (h, s) = Normal true ->
  let c := next_id h in
  exists h' attrs,
    initialize options env (h, s)
    = (Normal true,
       (h', mkState ready (position s) (gain s)
              (Some (mkNodes c None (S c) (S (S c)))) (streamRef s))) /\
    next_id h' = S (S (S c)) /\
    contexts h' = <[c := running]> (contexts h) /\
    nodes h' = <[S (S c) := GainNode c]>
                 (<[S c := PannerNode c attrs]> (nodes h)) /\
    edges h' = edges h /\
    tracks h' = tracks h /\
    listeners h' = listeners h /\
    prompts h' = prompts h /\
    has_getDisplayMedia h' = has_getDisplayMedia h.
Proof.
  intros Hn Hr c. subst c.
  destruct env as [av sus res lp lf], s as [st pos g nr sr],
    h as [ni cs ns es tl ct tr ls pr gd].
  cbv [nodesRef] in Hn. subst nr.
  destruct av; [|discriminate Hr].
  js_run_in Hr. js_run. rewrite lookup_insert_eq in *.
  destruct sus, res, lp, lf; try discriminate Hr;
    (eexists; eexists; split; [reflexivity|]; js_run;
     repeat split; rewrite ?insert_insert_eq; reflexivity).
Qed.

(** C1: from idle, a successful [initialize] gives [ready];
    [connectStream] gives [active]; [disconnectStream] gives [ready] again,
    with the same panner, gain node and running context; [cleanup] gives
    [idle] and closes the context. *)
Theorem lifecycle_scenario_A (options : UseSpatialAudioOptions)
    (env : AudioEnv) (w0 : Host * State) (stream : MediaStream) :
  status w0.2 = idle ->
  nodesRef w0.2 = None ->
  result (initialize options env) w0 = Normal true ->
  audioTracks stream <> [] ->
  let w1 := exec (initialize options env) w0 in
  let w2 := exec (connectStream stream) w1 in
  let w3 := exec disconnectStream w2 in
  let w4 := exec cleanup w3 in
  status w1.2 = ready /\
  result (connectStream stream) w1 = Normal tt /\
  status w2.2 = active /\
  result disconnectStream w2 = Normal tt /\
  status w3.2 = ready /\
  (exists n attrs,
      nodesRef w1.2 = Some n /\
      nodesRef w3.2 = Some n /\
      source n = None /\
      contexts w3.1 !! context n = Some running /\
      nodes w3.1 !! panner n = Some (PannerNode (context n) attrs) /\
      nodes w3.1 !! gain_node n = Some (GainNode (context n)) /\
      contexts w4.1 !! context n = Some closed) /\
  result cleanup w3 = Normal tt /\
  status w4.2 = idle /\
  nodesRef w4.2 = None.
Proof.
  destruct w0 as [h s]. intros _ Hn Hr Hs. cbn [snd] in Hn. cbv zeta.
  destruct (initialize_success options env h s Hn Hr)
    as (h' & attrs & Hw1 & Hid & Hc & Hnodes & _).
  assert (Hexec : exec (initialize options env) (h, s)
                  = (h', mkState ready (position s) (gain s)
                           (Some (mkNodes (next_id h) None (S (next_id h))
                                          (S (S (next_id h)))))
                           (streamRef s)))
    by (unfold exec; rewrite Hw1; reflexivity).
  rewrite Hexec. clear Hexec Hw1.
  destruct stream as [sid [|t ts] vs]; [contradiction|].
  destruct h' as [ni cs ns es tl ct tr ls pr gd].
  cbn [next_id contexts nodes] in Hid, Hc, Hnodes. subst ni cs ns.
  js_run.
  repeat split.
  exists (mkNodes (next_id h) None (S (next_id h)) (S (S (next_id h)))), attrs.
  js_run. repeat split.
  - apply lookup_insert_eq.
  - rewrite lookup_insert_ne by lia. rewrite lookup_insert_ne by lia.
    apply lookup_insert_eq.
  - rewrite lookup_insert_ne by lia. apply lookup_insert_eq.
  - apply lookup_insert_eq.
Qed.

(** The player's engine in an empty browser, with a stream of one audio
    track and one video track. *)
Lemma lifecycle_scenario_A_witness :
  let stream := mkMediaStream 10 [11%nat] [12%nat] in
  let w0 := (blank true, initial default_options) in
  let w1 := exec (initialize default_options friendly) w0 in
  let w2 := exec (connectStream stream) w1 in
  let w3 := exec disconnectStream w2 in
  let w4 := exec cleanup w3 in
  status w1.2 = ready /\
  status w2.2 = active /\
  status w3.2 = ready /\
  contexts w3.1 !! 0%nat = Some running /\
  status w4.2 = idle /\
  contexts w4.1 !! 0%nat = Some closed.
Proof.
  destruct (lifecycle_scenario_A default_options friendly
              (blank true, initial default_options)
              (mkMediaStream 10 [11%nat] [12%nat]))
    as (H1 & _ & H2 & _ & H3 & _ & _ & H4 & _);
    [reflexivity | reflexivity | reflexivity | discriminate |].
  repeat split; try assumption; reflexivity.
Defined.

(** [connectStream] on a ready engine wires source, panner, gain and
    destination in this order. *)
Lemma connectStream_wires (h : Host) (s : State) (n : SpatialAudioNodes)
    (stream : MediaStream) :
  nodesRef s = Some n -> source n = None -> audioTracks stream <> [] ->
  let w := exec (connectStream stream) (h, s) in
  edges w.1 = edges h ++ [(next_id h, ToNode (panner n));
                          (panner n, ToNode (gain_node n));
                          (gain_node n, ToDestination (context n))] /\
  nodesRef w.2 = Some (mkNodes (context n) (Some (next_id h)) (panner n)
                               (gain_node n)) /\
  streamRef w.2 = Some stream.
Proof.
  intros Hn Hsrc Hs.
  destruct s as [st pos g nr sr], n as [c src p gn],
    stream as [sid [|t ts] vs]; [contradiction|].
  cbv [nodesRef] in Hn. cbv [source] in Hsrc. subst nr src.
  js_run. rewrite <- !app_assoc. repeat split.
Qed.

(** The invariant holds at the first render and is kept by every event. *)
Lemma engine_inv_initial (options : UseSpatialAudioOptions) :
  engine_inv (initial options).
Proof. left. reflexivity. Qed.

Lemma engine_inv_step (options : UseSpatialAudioOptions)
    (w w' : Host * State) :
  engine_step options w w' -> engine_inv w.2 -> engine_inv w'.2.
Proof.
  intros Hstep. destruct Hstep as
    [env [h s] | stream [h s] | [h s] | px py height [h s] | value [h s]
    | [h s] | h' [h s]];
    unfold engine_inv; cbn [snd]; intros Hinv.
  - destruct s as [st pos g [[c [src|] p gn]|] sr];
      cbv [nodesRef status source] in Hinv; [exact Hinv | exact Hinv |].
    destruct env as [[] [] [] [] []]; js_run;
      rewrite ?lookup_insert_eq; js_run; auto.
  - destruct s as [st pos g [[c [src|] p gn]|] sr],
      stream as [sid [|t ts] vs];
      cbv [nodesRef status source] in Hinv; js_run; auto.
  - destruct s as [st pos g [[c [src|] p gn]|] sr];
      cbv [nodesRef status source] in Hinv; js_run; auto.
  - destruct s as [st pos g [[c [src|] p gn]|] sr];
      cbv [nodesRef status source] in Hinv; js_run; auto.
  - destruct s as [st pos g [[c [src|] p gn]|] sr];
      cbv [nodesRef status source] in Hinv; js_run; auto.
  - destruct s as [st pos g [[c [src|] p gn]|] sr];
      cbv [nodesRef status source] in Hinv; js_run; auto.
  - exact Hinv.
Qed.

Lemma engine_inv_reachable (options : UseSpatialAudioOptions) (h0 : Host)
    (w : Host * State) :
  engine_reachable options h0 w -> engine_inv w.2.
Proof.
  unfold engine_reachable. revert w.
  apply (rtc_ind_r (fun w => engine_inv w.2)).
  - apply engine_inv_initial.
  - intros w w' _ Hstep Hinv. exact (engine_inv_step _ _ _ Hstep Hinv).
Qed.

(** The three guards of the hook, as equations. *)
Lemma connectStream_without_nodes (stream : MediaStream) (w : Host * State) :
  nodesRef w.2 = None -> connectStream stream w = (Normal tt, w).
Proof.
  destruct w as [h s]. cbn [snd]. intros Hn.
  unfold connectStream, bind, read, gets. cbn [snd]. rewrite Hn. reflexivity.
Qed.

Lemma disconnectStream_without_source (w : Host * State) :
  nodesRef w.2 ≫= source = None -> disconnectStream w = (Normal tt, w).
Proof.
  destruct w as [h s]. cbn [snd]. intros Hn.
  unfold disconnectStream, bind, read, gets. cbn [snd].
  destruct (nodesRef s) as [n|]; [|reflexivity].
  cbn in Hn. rewrite Hn. reflexivity.
Qed.

Lemma cleanup_without_nodes (w : Host * State) :
  nodesRef w.2 = None -> cleanup w = (Normal tt, w).
Proof.
  destruct w as [h s]. cbn [snd]. intros Hn.
  unfold cleanup, bind, read, gets. cbn [snd]. rewrite Hn. reflexivity.
Qed.

Lemma cleanup_result (w : Host * State) :
  result cleanup w = Normal tt /\
  nodesRef (exec cleanup w).2 = None.
Proof.
  destruct w as [h [st pos g [[c [src|] p gn]|] sr]]; js_run; repeat split.
Qed.

(** C3: on every state the engine reaches, [connectStream] before
    [initialize] has succeeded (status idle or error) returns without a
    change, [disconnectStream] without an attached source returns without a
    change, [cleanup] on an idle engine returns without a change, and a
    second [cleanup] in a row returns without a change. *)
Theorem noop_safety (options : UseSpatialAudioOptions) (h0 : Host)
    (w : Host * State) :
  engine_reachable options h0 w ->
  (status w.2 = idle \/ status w.2 = error ->
   forall stream, connectStream stream w = (Normal tt, w)) /\
  (nodesRef w.2 ≫= source = None -> disconnectStream w = (Normal tt, w)) /\
  (status w.2 = idle -> cleanup w = (Normal tt, w)) /\
  (result cleanup w = Normal tt /\
   cleanup (exec cleanup w) = (Normal tt, exec cleanup w)).
Proof.
  intros Hreach. pose proof (engine_inv_reachable _ _ _ Hreach) as Hinv.
  unfold engine_inv in Hinv.
  split; [|split; [|split; [|split]]].
  - intros Hst stream. apply connectStream_without_nodes.
    destruct (nodesRef w.2) as [n|]; [|reflexivity].
    destruct (source n); destruct Hst as [Hst|Hst]; congruence.
  - apply disconnectStream_without_source.
  - intros Hst. apply cleanup_without_nodes.
    destruct (nodesRef w.2) as [n|]; [|reflexivity].
    destruct (source n); congruence.
  - apply cleanup_result.
  - apply cleanup_without_nodes. apply cleanup_result.
Qed.

(** The player's engine after [initialize] and [cleanup]: idle again, and
    each of the three calls leaves it as it is. *)
Lemma noop_safety_witness :
  let w := exec cleanup
             (exec (initialize default_options friendly)
                   (blank true, initial default_options)) in
  connectStream (mkMediaStream 10 [11%nat] [12%nat]) w = (Normal tt, w) /\
  disconnectStream w = (Normal tt, w) /\
  cleanup w = (Normal tt, w).
Proof.
  intros w.
  destruct (noop_safety default_options (blank true) w)
    as (Hconnect & Hdisconnect & Hcleanup & _).
  - eapply rtc_l; [apply step_initialize with (env := friendly)|].
    eapply rtc_l; [apply step_cleanup|]. apply rtc_refl.
  - split; [apply Hconnect; left; reflexivity|].
    split; [apply Hdisconnect; reflexivity | apply Hcleanup; reflexivity].
Defined.

(** C7: what [setPosition] and [setGain] do to the parameters of the graph
    is, on a live graph, three ramps on the panner's position and one ramp on
    the gain, each a [setTargetAtTime] at the current time with time constant
    0.02, and nothing else; without a graph they do nothing. *)
Theorem updates_are_smoothed (w : Host * State) (px py : Q)
    (height : option Q) (value : Q) :
  let now := currentTime w.1 in
  let pos := padToPosition3D px py (default 0 height) in
  let position_ops :=
    match nodesRef w.2 with
    | Some n =>
        [SetTargetAtTime (positionX (panner n)) (x pos * 5) now 0.02;
         SetTargetAtTime (positionY (panner n)) (y pos * 5) now 0.02;
         SetTargetAtTime (positionZ (panner n)) (z pos * 5) now 0.02]
    | None => []
    end in
  let gain_ops :=
    match nodesRef w.2 with
    | Some n =>
        [SetTargetAtTime (gainParam (gain_node n))
                         (Num.Math_max 0 (Num.Math_min 1 value)) now 0.02]
    | None => []
    end in
  timeline (exec (setPosition px py height) w).1
  = timeline w.1 ++ position_ops /\
  Forall smoothed position_ops /\
  timeline (exec (setGain value) w).1 = timeline w.1 ++ gain_ops /\
  Forall smoothed gain_ops.
Proof.
  destruct w as [h [st pos g [[c src p gn]|] sr]]; js_run;
    rewrite <- ?app_assoc, ?app_nil_r; repeat split;
    repeat constructor.
Qed.

(** The other operations on an initialized engine write no parameter. *)
Lemma rewiring_writes_no_parameter (w : Host * State) (stream : MediaStream) :
  timeline (exec (connectStream stream) w).1 = timeline w.1 /\
  timeline (exec disconnectStream w).1 = timeline w.1 /\
  timeline (exec cleanup w).1 = timeline w.1.
Proof.
  destruct w as [h [st pos g [[c [src|] p gn]|] sr]],
    stream as [sid [|t ts] vs]; js_run; repeat split.
Qed.

(** The target [updateGain] hands to the gain node lies in [0, 1]. *)
Lemma updateGain_target_clamped (value : Q) :
  0 <= Num.Math_max 0 (Num.Math_min 1 value) /\
  Num.Math_max 0 (Num.Math_min 1 value) <= 1.
Proof. split; [apply clamp_lower | apply clamp_upper; lra]. Qed.

(** What [setGain] does on an initialized engine: the ramp target is
    clamped, the [gain] state receives the argument as it is. *)
Lemma setGain_effect (w : Host * State) (n : SpatialAudioNodes) (value : Q) :
  nodesRef w.2 = Some n ->
  gain (exec (setGain value) w).2 = value /\
  timeline (exec (setGain value) w).1
  = timeline w.1 ++
    [SetTargetAtTime (gainParam (gain_node n))
                     (Num.Math_max 0 (Num.Math_min 1 value))
                     (currentTime w.1) 0.02].
Proof.
  destruct w as [h [st pos g nr sr]]. cbn [snd]. cbv [nodesRef]. intros ->.
  js_run. split; reflexivity.
Qed.

(** C4 fails on the code: on the initialized engine of the player,
    [setGain(1.7)] ramps the gain node to 1 but stores 1.7 in the [gain]
    state of the hook, and [setGain(-0.5)] ramps to 0 but stores -0.5; the
    stored values are outside [0, 1]. *)
Theorem setGain_stores_unclamped :
  let w := exec (initialize default_options friendly)
                (blank true, initial default_options) in
  let high := exec (setGain 1.7) w in
  let low := exec (setGain (-0.5)) w in
  gain high.2 = 1.7 /\
  ~ gain high.2 <= 1 /\
  last (timeline high.1) = Some (SetTargetAtTime (gainParam 2) 1 0 0.02) /\
  gain low.2 = -0.5 /\
  ~ 0 <= gain low.2 /\
  last (timeline low.1) = Some (SetTargetAtTime (gainParam 2) 0 0 0.02).
Proof.
  cbv zeta. split; [reflexivity|].
  split; [intros H; apply H; reflexivity|].
  split; [reflexivity|]. split; [reflexivity|].
  split; [intros H; apply H; reflexivity | reflexivity].
Qed.

End EngineHook.

(** ** The capture hook *)

Section CaptureHook.
Import Capture Reach.

(** Creating and stopping tracks shows no prompt, adds no listener and does
    not change what the browser supports. *)
Lemma newTracks_frame (n : nat) (h : Host) :
  exists ts h',
    newTracks n h = (Normal ts, h') /\
    length ts = n /\
    has_getDisplayMedia h' = has_getDisplayMedia h /\
    prompts h' = prompts h /\
    listeners h' = listeners h.
Proof.
  revert h. induction n as [|n IH]; intros h.
  - exists [], h. repeat split.
  - destruct h as [ni cs ns es tl ct tr ls pr gd].
    destruct (IH (mkHost (S ni) cs ns es tl ct (<[ni := live]> tr) ls pr gd))
      as (ts & h' & E & Hlen & Hsup & Hpr & Hls).
    exists (ni :: ts), h'. split.
    + cbn [newTracks]. js_run. rewrite E. reflexivity.
    + cbn [length]. rewrite Hlen, Hsup, Hpr, Hls. repeat split.
Qed.

Lemma stopTracks_frame (ts : list nat) (h : Host) :
  exists h',
    forEach stopTrack ts h = (Normal tt, h') /\
    has_getDisplayMedia h' = has_getDisplayMedia h /\
    prompts h' = prompts h /\
    listeners h' = listeners h.
Proof.
  revert h. induction ts as [|t ts IH]; intros h.
  - exists h. repeat split.
  - destruct h as [ni cs ns es tl ct tr ls pr gd].
    destruct (IH (mkHost ni cs ns es tl ct (<[t := ended]> tr) ls pr gd))
      as (h' & E & Hsup & Hpr & Hls).
    exists h'. split.
    + cbn [forEach]. js_run. js_run_in E. rewrite E. reflexivity.
    + rewrite Hsup, Hpr, Hls. repeat split.
Qed.

(** The three answers of [getDisplayMedia]. *)
Lemma getDisplayMedia_missing (o : DisplayMediaOutcome) (h : Host) :
  has_getDisplayMedia h = false ->
  getDisplayMedia o h = (Throw (ErrorObject "TypeError"), h).
Proof.
  destruct h as [ni cs ns es tl ct tr ls pr gd]. cbn [has_getDisplayMedia].
  intros ->. reflexivity.
Qed.

Lemma getDisplayMedia_rejected (e : Thrown) (h : Host) :
  has_getDisplayMedia h = true ->
  getDisplayMedia (Rejected e) h = (Throw e, with_prompts (S (prompts h)) h).
Proof.
  destruct h as [ni cs ns es tl ct tr ls pr gd]. cbn [has_getDisplayMedia].
  intros ->. reflexivity.
Qed.

Lemma getDisplayMedia_granted (n_audio n_video : nat) (h : Host) :
  has_getDisplayMedia h = true ->
  exists s h',
    getDisplayMedia (Granted n_audio n_video) h = (Normal s, h') /\
    length (audioTracks s) = n_audio /\
    length (videoTracks s) = n_video /\
    has_getDisplayMedia h' = true /\
    prompts h' = S (prompts h) /\
    listeners h' = listeners h.
Proof.
  destruct h as [ni cs ns es tl ct tr ls pr gd]. cbn [has_getDisplayMedia].
  intros ->.
  destruct (newTracks_frame n_audio
              (mkHost (S ni) cs ns es tl ct tr ls (S pr) true))
    as (audio & h2 & E2 & Hlen2 & Hsup2 & Hpr2 & Hls2).
  destruct (newTracks_frame n_video h2)
    as (video & h3 & E3 & Hlen3 & Hsup3 & Hpr3 & Hls3).
  exists (mkMediaStream ni audio video), h3. split.
  - unfold getDisplayMedia. js_run. rewrite E2, E3. reflexivity.
  - cbn [audioTracks videoTracks].
    rewrite Hsup3, Hpr3, Hls3, Hsup2, Hpr2, Hls2.
    repeat split; assumption.
Qed.

(** [startCapture] without a current stream never throws; it stores the
    stream it returns, keeps [isSupported], and shows one prompt exactly when
    the hook believes the API is there and it is. *)
Lemma startCapture_outcome (v : Variant) (o : DisplayMediaOutcome) (h : Host)
    (c : State) :
  streamRef c = None ->
  exists r h' c',
    startCapture v o (h, c) = (Normal r, (h', c')) /\
    streamRef c' = r /\
    isSupported c' = isSupported c /\
    has_getDisplayMedia h' = has_getDisplayMedia h /\
    prompts h' = (if (isSupported c && has_getDisplayMedia h)%bool
                  then S (prompts h) else prompts h) /\
    status c' = (match r with Some _ => capturing | None => error end) /\
    (r <> None -> has_getDisplayMedia h = true).
Proof.
  destruct c as [st er sm sup sr], h as [ni cs ns es tl ct tr ls pr gd].
  cbv [streamRef]. intros ->.
  destruct sup; [destruct gd; [destruct o as [n_audio n_video|e]|]|].
  - destruct (getDisplayMedia_granted n_audio n_video
                (mkHost ni cs ns es tl ct tr ls pr true) eq_refl)
      as ([sid audio video] & h1 & E & _ & _ & Hsup1 & Hpr1 & _).
    destruct audio as [|first audio].
    + destruct (stopTracks_frame ([] ++ video) h1)
        as (h2 & E2 & Hsup2 & Hpr2 & _).
      js_run_in E2.
      destruct h2 as [ni2 cs2 ns2 es2 tl2 ct2 tr2 ls2 pr2 gd2].
      cbn [has_getDisplayMedia prompts] in *.
      eexists; eexists; eexists. split.
      * js_run. rewrite E. js_run. rewrite E2. js_run. reflexivity.
      * js_run. repeat split; congruence.
    + destruct v.
      * destruct h1 as [ni1 cs1 ns1 es1 tl1 ct1 tr1 ls1 pr1 gd1].
        cbn [has_getDisplayMedia prompts] in *.
        eexists; eexists; eexists. split.
        -- js_run. rewrite E. js_run. reflexivity.
        -- js_run. repeat split; congruence.
      * destruct (stopTracks_frame video h1) as (h2 & E2 & Hsup2 & Hpr2 & _).
        js_run_in E2.
        destruct h2 as [ni2 cs2 ns2 es2 tl2 ct2 tr2 ls2 pr2 gd2].
        cbn [has_getDisplayMedia prompts] in *.
        eexists; eexists; eexists. split.
        -- js_run. rewrite E. js_run. rewrite E2. js_run. reflexivity.
        -- js_run. repeat split; congruence.
  - eexists; eexists; eexists. split.
    + js_run. rewrite getDisplayMedia_rejected by reflexivity. js_run.
      reflexivity.
    + js_run. repeat split; intros H; contradiction H; reflexivity.
  - eexists; eexists; eexists. split.
    + js_run. rewrite getDisplayMedia_missing by reflexivity. js_run.
      reflexivity.
    + js_run. repeat split; intros H; contradiction H; reflexivity.
  - eexists; eexists; eexists. split.
    + js_run. reflexivity.
    + js_run. repeat split; intros H; contradiction H; reflexivity.
Qed.

Lemma stopCapture_frame (h : Host) (c : State) :
  exists h',
    stopCapture (h, c)
    = (Normal tt, (h', mkState idle None None (isSupported c) None)) /\
    has_getDisplayMedia h' = has_getDisplayMedia h.
Proof.
  destruct c as [st er sm sup [s|]], h as [ni cs ns es tl ct tr ls pr gd].
  - destruct (stopTracks_frame (getTracks s)
                (mkHost ni cs ns es tl ct tr ls pr gd))
      as (h' & E & Hsup & _).
    js_run_in E. destruct h' as [ni' cs' ns' es' tl' ct' tr' ls' pr' gd'].
    eexists. split; [js_run; rewrite E; js_run; reflexivity | exact Hsup].
  - eexists. split; [js_run; reflexivity | reflexivity].
Qed.

Lemma trackEnded_frame (t : nat) (h : Host) (c : State) :
  exists h' c',
    trackEnded t (h, c) = (Normal tt, (h', c')) /\
    has_getDisplayMedia h' = has_getDisplayMedia h /\
    isSupported c' = isSupported c /\
    (streamRef c' = streamRef c \/ streamRef c' = None).
Proof.
  destruct c as [st er sm sup sr], h as [ni cs ns es tl ct tr ls pr gd].
  destruct (tr !! t) as [[|]|] eqn:Etrack;
    [destruct (bool_decide (t ∈ ls)) eqn:Elistener| |];
    (eexists; eexists; split;
     [js_run; rewrite Etrack; js_run; rewrite ?Elistener; reflexivity
     |js_run; auto]).
Qed.

(** The invariant holds at the first render and is kept by every event. *)
Lemma capture_inv_initial (h0 : Host) : capture_inv (h0, initial).
Proof. split; [left; reflexivity | intros H; contradiction H; reflexivity]. Qed.

Lemma capture_inv_step (w w' : Host * State) :
  capture_step w w' -> capture_inv w -> capture_inv w'.
Proof.
  intros Hstep. destruct Hstep as
    [[h c] | v o [h c] | [h c] | t [h c] | h' [h c] Hsame];
    unfold capture_inv; cbn [fst snd]; intros [Hsup Href].
  - destruct c as [st er sm sup sr], h as [ni cs ns es tl ct tr ls pr gd].
    js_run. js_run_in Href. split; [right; reflexivity | exact Href].
  - destruct (streamRef c) as [s|] eqn:Hs.
    + assert (Hgd : has_getDisplayMedia h = true) by (apply Href; discriminate).
      destruct c as [st er sm sup sr], h as [ni cs ns es tl ct tr ls pr gd].
      cbv [streamRef] in Hs. subst sr.
      cbn [has_getDisplayMedia isSupported] in *.
      destruct sup; js_run; split; auto; discriminate.
    + destruct (startCapture_outcome v o h c Hs)
        as (r & h' & c' & E & Hr & Hsup' & Hgd' & _ & _ & Hsome).
      unfold exec. rewrite E. cbn [fst snd]. rewrite Hsup', Hgd', Hr.
      split; [exact Hsup | exact Hsome].
  - destruct (stopCapture_frame h c) as (h' & E & Hgd').
    unfold exec. rewrite E. cbn [fst snd]. unfold isSupported at 1 2.
    rewrite Hgd'. split; [exact Hsup | intros H; contradiction H; reflexivity].
  - destruct (trackEnded_frame t h c) as (h' & c' & E & Hgd' & Hsup' & Hr).
    unfold exec. rewrite E. cbn [fst snd]. rewrite Hsup', Hgd'.
    split; [exact Hsup|]. destruct Hr as [-> | ->];
      [exact Href | intros H; contradiction H; reflexivity].
  - rewrite Hsame. split; assumption.
Qed.

Lemma capture_inv_reachable (h0 : Host) (w : Host * State) :
  capture_reachable h0 w -> capture_inv w.
Proof.
  unfold capture_reachable. revert w. apply (rtc_ind_r capture_inv).
  - apply capture_inv_initial.
  - intros w w' _ Hstep Hinv. exact (capture_inv_step _ _ Hstep Hinv).
Qed.

(** C10: when the capture hook holds a stream, [startCapture] returns that
    stream and leaves the hook and the browser as they are: no prompt is
    shown, and status and error keep their values. *)
Theorem startCapture_reuses_stream (h0 : Host) (w : Host * State)
    (s : MediaStream) (v : Variant) (o : DisplayMediaOutcome) :
  capture_reachable h0 w ->
  streamRef w.2 = Some s ->
  startCapture v o w = (Normal (Some s), w).
Proof.
  intros Hreach Hs. destruct (capture_inv_reachable _ _ Hreach) as [Hsup Hgd].
  assert (Hsupported : isSupported w.2 = true).
  { destruct Hsup as [H|H]; [exact H|]. rewrite H. apply Hgd. congruence. }
  destruct w as [h [st er sm sup sr]]. cbn [snd] in *.
  cbv [streamRef] in Hs. cbv [isSupported] in Hsupported. subst sr sup.
  reflexivity.
Qed.

(** The hook after one granted capture, asked again while the browser would
    now reject. *)
Lemma startCapture_reuses_stream_witness :
  let w := exec (startCapture player_hook (Granted 1 1))
                (blank true, initial) in
  startCapture player_hook (Rejected (ErrorObject "NotAllowedError")) w
  = (Normal (Some (mkMediaStream 0 [1%nat] [2%nat])), w).
Proof.
  apply (startCapture_reuses_stream (blank true)).
  - apply rtc_once. apply step_startCapture.
  - reflexivity.
Defined.

End CaptureHook.

(** ** The orchestration layer *)

Section Orchestration.
Import Player.

(** Rewiring shows no prompt. *)
Lemma connectStream_prompts (stream : MediaStream)
    (w : Host * SpatialAudio.State) :
  prompts (exec (SpatialAudio.connectStream stream) w).1 = prompts w.1.
Proof.
  destruct w as [h [st pos g [[c [src|] p gn]|] sr]],
    h as [ni cs ns es tl ct tr ls pr gd],
    stream as [sid [|t ts] vs]; reflexivity.
Qed.

(** C8: when [initialize] has succeeded and the capture yields no stream,
    [handleStart] stops after the capture: the engine is ready, with its
    nodes and without a source.  On a second [handleStart], [initialize]
    returns [true] and changes nothing, so that the attempt is the capture
    followed by the connection; the browser shows one more prompt when the
    API is there. *)
Theorem capture_denied_scenario_B (v : Capture.Variant) (env : AudioEnv)
    (o : DisplayMediaOutcome) (w0 : World) :
  SpatialAudio.nodesRef (spatial w0) = None ->
  Capture.streamRef (capture w0) = None ->
  result (onSpatial (SpatialAudio.initialize options env)) w0 = Normal true ->
  result (onCapture (Capture.startCapture v o))
         (exec (onSpatial (SpatialAudio.initialize options env)) w0)
  = Normal None ->
  let w1 := exec (onSpatial (SpatialAudio.initialize options env)) w0 in
  let w2 := exec (handleStart v env o) w0 in
  result (handleStart v env o) w0 = Normal tt /\
  w2 = exec (onCapture (Capture.startCapture v o)) w1 /\
  SpatialAudio.status (spatial w2) = SpatialAudio.ready /\
  (exists n, SpatialAudio.nodesRef (spatial w2) = Some n /\
             Engine.source n = None) /\
  Controls.canStart (Capture.isSupported (capture w2))
                    (Capture.status (capture w2))
                    (SpatialAudio.status (spatial w2))
  = Capture.isSupported (capture w0) /\
  forall env' o',
    onSpatial (SpatialAudio.initialize options env') w2 = (Normal true, w2) /\
    handleStart v env' o' w2
    = (let* stream := onCapture (Capture.startCapture v o') in
       match stream with
       | None => ret tt
       | Some s => onSpatial (SpatialAudio.connectStream s)
       end) w2 /\
    prompts (host (exec (handleStart v env' o') w2))
    = if (Capture.isSupported (capture w0)
          && has_getDisplayMedia (host w0))%bool
      then S (prompts (host w2)) else prompts (host w2).
Proof.
  destruct w0 as [h sp cp]. cbn [spatial capture host].
  intros Hnodes Hstream Hinit Hcap.
  assert (Hinit' : result (SpatialAudio.initialize options env) (h, sp)
                   = Normal true).
  { revert Hinit. unfold result, onSpatial, zoom. cbn [host spatial].
    destruct (SpatialAudio.initialize options env (h, sp)) as [r w'].
    intros Hr. exact Hr. }
  destruct (initialize_success options env h sp Hnodes Hinit')
    as (h1 & attrs & E1 & _ & _ & _ & _ & _ & _ & Hpr1 & Hgd1).
  set (sp1 := SpatialAudio.mkState _ _ _ _ _) in E1.
  destruct (startCapture_outcome v o h1 cp Hstream)
    as (r & h2 & c2 & E2 & Hr & Hsup2 & Hgd2 & Hpr2 & Hst2 & _).
  assert (Hnone : r = None).
  { revert Hcap. unfold result, exec, onSpatial, onCapture, zoom.
    cbn [host spatial capture]. rewrite E1. cbn [fst snd host capture].
    rewrite E2. cbn [fst]. congruence. }
  rewrite Hnone in *. clear Hnone.
  assert (Hstart : handleStart v env o (mkWorld h sp cp)
                   = (Normal tt, mkWorld h2 sp1 c2)).
  { unfold handleStart, bind, onSpatial, onCapture, zoom.
    cbn [host spatial capture]. rewrite E1.
    cbn [fst snd negb host spatial capture]. rewrite E2. reflexivity. }
  assert (Hw1 : exec (onSpatial (SpatialAudio.initialize options env))
                     (mkWorld h sp cp) = mkWorld h1 sp1 cp).
  { unfold exec, onSpatial, zoom. cbn [host spatial capture].
    rewrite E1. reflexivity. }
  assert (Hres : result (handleStart v env o) (mkWorld h sp cp) = Normal tt)
    by (unfold result; rewrite Hstart; reflexivity).
  assert (Hw2 : exec (handleStart v env o) (mkWorld h sp cp)
                = mkWorld h2 sp1 c2)
    by (unfold exec; rewrite Hstart; reflexivity).
  cbv zeta. rewrite Hres, Hw2, Hw1. clear Hres Hw2 Hw1 Hstart.
  cbn [spatial capture host].
  split; [reflexivity|]. split.
  { unfold exec, onCapture, zoom. cbn [host capture spatial].
    rewrite E2. reflexivity. }
  split; [reflexivity|]. split.
  { eexists. split; reflexivity. }
  split.
  { rewrite Hst2, Hsup2. unfold Controls.canStart.
    destruct (Capture.isSupported cp); reflexivity. }
  intros env' o'.
  assert (Hagain : SpatialAudio.initialize options env' (h2, sp1)
                   = (Normal true, (h2, sp1)))
    by (eapply initialize_with_nodes; reflexivity).
  split; [|split].
  - unfold onSpatial, zoom. cbn [host spatial capture]. rewrite Hagain.
    reflexivity.
  - unfold handleStart at 1. unfold bind at 1. unfold onSpatial at 1.
    unfold zoom at 1. cbn [host spatial capture]. rewrite Hagain.
    reflexivity.
  - destruct (startCapture_outcome v o' h2 c2 Hr)
      as (r3 & h3 & c3 & E3 & _ & _ & _ & Hpr3 & _).
    unfold exec, handleStart, bind, onSpatial, onCapture, zoom.
    cbn [host spatial capture]. rewrite Hagain.
    cbn [fst snd negb host spatial capture]. rewrite E3.
    cbn [fst snd host spatial capture].
    rewrite Hsup2, Hgd2, Hgd1 in Hpr3.
    destruct r3 as [s|]; cbn [snd host spatial capture]; [|exact Hpr3].
    pose proof (connectStream_prompts s (h3, sp1)) as Hc.
    unfold exec in Hc. cbn [fst] in Hc.
    destruct (SpatialAudio.connectStream s (h3, sp1)) as [r4 [h4 sp4]].
    cbn [fst snd host] in *. congruence.
Qed.

(** The player in an empty browser, with the sharing refused once. *)
Lemma capture_denied_scenario_B_witness :
  let denied := Rejected (ErrorObject "NotAllowedError") in
  let w2 := exec (handleStart Capture.player_hook friendly denied)
                 (mounted (blank true)) in
  result (handleStart Capture.player_hook friendly denied)
         (mounted (blank true)) = Normal tt /\
  SpatialAudio.status (spatial w2) = SpatialAudio.ready /\
  onSpatial (SpatialAudio.initialize options friendly) w2
  = (Normal true, w2) /\
  prompts (host (exec (handleStart Capture.player_hook friendly
                         (Granted 1 1)) w2))
  = S (prompts (host w2)).
Proof.
  destruct (capture_denied_scenario_B Capture.player_hook friendly
              (Rejected (ErrorObject "NotAllowedError"))
              (mounted (blank true)))
    as (Hres & _ & Hready & _ & _ & Hsecond);
    [reflexivity | reflexivity | vm_compute; reflexivity
    | vm_compute; reflexivity |].
  destruct (Hsecond friendly (Granted 1 1)) as (Hinit & _ & Hprompts).
  split; [exact Hres|]. split; [exact Hready|]. split; [exact Hinit|].
  exact Hprompts.
Defined.

(** What the user is shown before anything has started. *)
Lemma display_at_rest :
  display (mounted (blank true))
  = {| statusText := "待機中";
       errorText := None;
       startEnabled := true;
       stopEnabled := false;
       padDisabled := true |}.
Proof. vm_compute. reflexivity. Qed.

(** No event of the capture hook reaches the engine hook: the player passes
    nothing from one to the other when a track ends. *)
Lemma trackEnded_keeps_engine (t : nat) (w : World) :
  spatial (exec (onCapture (Capture.trackEnded t)) w) = spatial w.
Proof.
  unfold exec, onCapture, zoom.
  destruct (Capture.trackEnded t (host w, capture w)) as [r hc]. reflexivity.
Qed.

(** C9 fails on the code: after a successful start, the browser ends the
    captured audio track.  The capture hook goes back to idle without an
    error, but the engine stays active and what the user is shown does not
    change: the status still reads as active, start stays disabled and stop
    stays enabled.  Only [handleStop] brings the display back to rest. *)
Theorem revoked_sharing_stays_active (v : Capture.Variant) :
  let w1 := exec (handleStart v friendly (Granted 1 1))
                 (mounted (blank true)) in
  let w2 := exec (onCapture (Capture.trackEnded 4)) w1 in
  (audioTracks <$> Capture.streamRef (capture w1)) = Some [4%nat] /\
  Capture.status (capture w1) = Capture.capturing /\
  SpatialAudio.status (spatial w1) = SpatialAudio.active /\
  result (onCapture (Capture.trackEnded 4)) w1 = Normal tt /\
  Capture.status (capture w2) = Capture.idle /\
  Capture.error_ (capture w2) = None /\
  Capture.streamRef (capture w2) = None /\
  SpatialAudio.status (spatial w2) = SpatialAudio.active /\
  display w2 = display w1 /\
  display w2
  = {| statusText := "3D音響有効";
       errorText := None;
       startEnabled := false;
       stopEnabled := true;
       padDisabled := false |} /\
  display (exec handleStop w2) = display (mounted (blank true)).
Proof. destruct v; vm_compute; repeat split. Qed.

End Orchestration.

(** ** The pad as a component *)

Section PadComponent.
Import Num PositionPad.




(** X2: a disabled pad is inert.  Whatever the pointer does, the parent is
    not called and the position does not change; and on any pad a move
    outside a drag (after pointer up, or before the first pointer down)
    changes nothing at all. *)
Theorem pad_inert {W : Type} (onPositionChange : option (Q -> Q -> Js W unit))
    (rect : option DOMRect) (events : list PointerEvent) (ws : W * State) :
  (result (forEach (handle onPositionChange true rect) events) ws = Normal tt /\
   (exec (forEach (handle onPositionChange true rect) events) ws).1 = ws.1 /\
   position (exec (forEach (handle onPositionChange true rect) events) ws).2
   = position ws.2) /\
  (forall disabled clientX clientY,
     handlePointerMove onPositionChange disabled rect clientX clientY
       (exec handlePointerUp ws)
     = (Normal tt, exec handlePointerUp ws)) /\
  (forall disabled clientX clientY,
     handlePointerMove onPositionChange disabled rect clientX clientY
       (ws.1, initial (position ws.2))
     = (Normal tt, (ws.1, initial (position ws.2)))).
Proof.
  split; [|split; [|]].
  - revert ws. induction events as [|e events IH]; intros [w [pos drag]].
    + repeat split.
    + specialize (IH (w, mkState pos (match e with PointerUp => false
                                               | _ => drag end))).
      destruct IH as (IH1 & IH2 & IH3).
      destruct e, drag; unfold result, exec in *; cbn in *;
        repeat split; assumption.
  - intros disabled cx cy. destruct ws as [w [pos drag]]. reflexivity.
  - intros disabled cx cy. reflexivity.
Qed.

(** What one event on an enabled pad with a mounted surface reports. *)
Lemma handle_reports (r : DOMRect) (e : PointerEvent)
    (calls : list (Q * Q)) (s : State) :
  handle (Some logPosition) false (Some r) e (calls, s) = (Normal tt, (calls, s))
  \/ (exists drag, handle (Some logPosition) false (Some r) e (calls, s)
                   = (Normal tt, (calls, mkState (position s) drag)))
  \/ (exists cx cy drag,
        let p := Pad.pixelToNormalized (cx - left r) (cy - top r)
                   (width r) (height r) in
        handle (Some logPosition) false (Some r) e (calls, s)
        = (Normal tt, (calls ++ [(Pad.x p, Pad.y p)], mkState p drag))).
Proof.
  destruct s as [pos drag], e as [cx cy|cx cy|].
  - right. right. exists cx, cy, true. reflexivity.
  - destruct drag.
    + right. right. exists cx, cy, true. reflexivity.
    + left. reflexivity.
  - right. left. exists false. reflexivity.
Qed.

(** X3: on an enabled pad over a surface of positive size, every position
    handed to [onPositionChange] has both coordinates in [-1, 1], and after
    any sequence of pointer events the stored position is the last one
    reported (or the one before the events, when none was reported). *)
Theorem pad_reports_stored_position (r : DOMRect)
    (events : list PointerEvent) (calls : list (Q * Q)) (s : State) :
  0 < width r -> 0 < height r ->
  exists new s',
    forEach (handle (Some logPosition) false (Some r)) events (calls, s)
    = (Normal tt, (calls ++ new, s')) /\
    Forall (fun c : Q * Q => -1 <= c.1 /\ c.1 <= 1 /\ -1 <= c.2 /\ c.2 <= 1)
           new /\
    position s' = match last new with
                  | Some c => Pad.mkPosition c.1 c.2
                  | None => position s
                  end.
Proof.
  intros Hw Hh. revert calls s.
  induction events as [|e events IH]; intros calls s.
  - exists [], s. rewrite app_nil_r. repeat split. constructor.
  - cbn [forEach]. unfold bind at 1.
    destruct (handle_reports r e calls s)
      as [E | [(drag & E) | (cx & cy & drag & E)]]; rewrite E.
    + apply IH.
    + destruct (IH calls (mkState (position s) drag))
        as (new & s' & E' & Hrange & Hpos).
      exists new, s'. repeat split; assumption.
    + cbv zeta in E.
      set (p := Pad.pixelToNormalized (cx - left r) (cy - top r)
                  (width r) (height r)) in *.
      destruct (IH (calls ++ [(Pad.x p, Pad.y p)]) (mkState p drag))
        as (new & s' & E' & Hrange & Hpos).
      exists ((Pad.x p, Pad.y p) :: new), s'. split; [|split].
      * rewrite E'. rewrite <- app_assoc. reflexivity.
      * constructor; [|exact Hrange]. cbn [fst snd].
        unfold p, Pad.pixelToNormalized. cbn [Pad.x Pad.y].
        repeat split; apply axis_range.
      * rewrite Hpos. cbn [position].
        destruct new as [|c new]; [destruct p; reflexivity|].
        rewrite last_cons_cons.
        destruct (last (c :: new)) eqn:El; [reflexivity|].
        apply last_None in El. discriminate El.
Qed.

(** A press at the top left corner of a 200 by 100 surface, then a move
    beyond the bottom right, then a release and a stray move. *)
Lemma pad_reports_stored_position_witness :
  exists new s',
    forEach (handle (Some logPosition) false (Some (mkRect 10 20 200 100)))
            [PointerDown 10 20; PointerMove 500 500; PointerUp;
             PointerMove 110 70]
            ([], initial default_initialPosition)
    = (Normal tt, ([] ++ new, s')) /\
    Forall (fun c : Q * Q => -1 <= c.1 /\ c.1 <= 1 /\ -1 <= c.2 /\ c.2 <= 1)
           new /\
    position s' = match last new with
                  | Some c => Pad.mkPosition c.1 c.2
                  | None => position (initial default_initialPosition)
                  end.
Proof.
  apply (pad_reports_stored_position (mkRect 10 20 200 100)); reflexivity.
Defined.

End PadComponent.

(** ** The pad inside the player *)

Section PadInPlayer.
Import Player.

(** X4: unless the engine is active, the pad of the player is disabled:
    no pointer event reaches the engine, the browser or the capture hook,
    and the pad keeps its position. *)
Theorem pad_needs_active_engine (rect : option PositionPad.DOMRect)
    (e : PositionPad.PointerEvent) (w : World) (pad : PositionPad.State) :
  SpatialAudio.status (spatial w) <> SpatialAudio.active ->
  result (Page.padEvent rect e) (w, pad) = Normal tt /\
  (exec (Page.padEvent rect e) (w, pad)).1 = w /\
  PositionPad.position (exec (Page.padEvent rect e) (w, pad)).2
  = PositionPad.position pad.
Proof.
  intros Hst. unfold Page.padEvent, result, exec. cbn [fst snd].
  assert (Hdis : padDisabled (display w) = true).
  { unfold display. cbn [padDisabled].
    destruct (SpatialAudio.status (spatial w)); try reflexivity.
    contradiction Hst; reflexivity. }
  rewrite Hdis. destruct pad as [pos drag], e as [cx cy|cx cy|], drag;
    repeat split.
Qed.

(** A press on the pad of a page on which nothing has been started. *)
Lemma pad_needs_active_engine_witness :
  let w := mounted (blank true) in
  let pad := PositionPad.initial PositionPad.default_initialPosition in
  let e := PositionPad.PointerDown 30 40 in
  let rect := Some (PositionPad.mkRect 0 0 200 200) in
  (exec (Page.padEvent rect e) (w, pad)).1 = w /\
  PositionPad.position (exec (Page.padEvent rect e) (w, pad)).2
  = PositionPad.position pad.
Proof.
  destruct (pad_needs_active_engine
              (Some (PositionPad.mkRect 0 0 200 200))
              (PositionPad.PointerDown 30 40) (mounted (blank true))
              (PositionPad.initial PositionPad.default_initialPosition))
    as (_ & Hw & Hp); [discriminate|].
  split; [exact Hw | exact Hp].
Defined.

(** X5: a press (or a move during a drag) on the pad of an active engine,
    over a surface of positive size, places the source.  With [p] the
    normalized position of the pointer, the engine stores [(p.x, 0, -p.y)]
    and ramps the panner to five times that position; the lateral and depth
    targets lie in [-5, 5] and the height target is 0. *)
Theorem pad_places_source (r : PositionPad.DOMRect) (clientX clientY : Q)
    (w : World) (pad : PositionPad.State) (n : Engine.SpatialAudioNodes) :
  SpatialAudio.status (spatial w) = SpatialAudio.active ->
  SpatialAudio.nodesRef (spatial w) = Some n ->
  0 < PositionPad.width r -> 0 < PositionPad.height r ->
  let p := Pad.pixelToNormalized (clientX - PositionPad.left r)
             (clientY - PositionPad.top r)
             (PositionPad.width r) (PositionPad.height r) in
  let w' := (exec (Page.padEvent (Some r)
                     (PositionPad.PointerDown clientX clientY)) (w, pad)).1 in
  let now := currentTime (host w) in
  SpatialAudio.position (spatial w')
  = Engine.mkPosition3D (Pad.x p) 0 (- Pad.y p) /\
  timeline (host w')
  = timeline (host w) ++
    [SetTargetAtTime (positionX (Engine.panner n)) (Pad.x p * 5) now 0.02;
     SetTargetAtTime (positionY (Engine.panner n)) (0 * 5) now 0.02;
     SetTargetAtTime (positionZ (Engine.panner n)) (- Pad.y p * 5) now 0.02] /\
  (-5 <= Pad.x p * 5 /\ Pad.x p * 5 <= 5) /\
  (-5 <= - Pad.y p * 5 /\ - Pad.y p * 5 <= 5) /\
  exec (Page.padEvent (Some r) (PositionPad.PointerMove clientX clientY))
       (w, PositionPad.mkState (PositionPad.position pad) true)
  = exec (Page.padEvent (Some r) (PositionPad.PointerDown clientX clientY))
         (w, pad).
Proof.
  intros Hst Hn _ _. cbv zeta.
  set (p := Pad.pixelToNormalized _ _ _ _).
  destruct w as [[ni cs ns es tl ct tr ls pr gd] [st pos g nr sr] cp].
  cbn [spatial SpatialAudio.status SpatialAudio.nodesRef] in Hst, Hn.
  subst st nr. destruct pad as [ppos drag].
  unfold Page.padEvent, exec. cbn [fst snd].
  split; [reflexivity|]. split.
  { cbn. rewrite <- !app_assoc. reflexivity. }
  split; [|split; [|reflexivity]].
  - unfold p, Pad.pixelToNormalized. cbn [Pad.x Pad.y].
    destruct (axis_range ((clientX - PositionPad.left r)
                          / PositionPad.width r * 2 - 1)) as [H1 H2].
    split; lra.
  - unfold p, Pad.pixelToNormalized. cbn [Pad.x Pad.y].
    destruct (axis_range (- ((clientY - PositionPad.top r)
                             / PositionPad.height r * 2 - 1))) as [H1 H2].
    split; lra.
Qed.

(** A press on the top left corner of the pad after a successful start:
    the source goes to the front left, [(-1, 0, -1)]. *)
Lemma pad_places_source_witness :
  let w := exec (handleStart Capture.player_hook friendly (Granted 1 1))
                (mounted (blank true)) in
  let pad := PositionPad.initial PositionPad.default_initialPosition in
  let w' := (exec (Page.padEvent (Some (PositionPad.mkRect 0 0 200 200))
                     (PositionPad.PointerDown 0 0)) (w, pad)).1 in
  Engine.x (SpatialAudio.position (spatial w')) == -1 /\
  Engine.y (SpatialAudio.position (spatial w')) == 0 /\
  Engine.z (SpatialAudio.position (spatial w')) == -1.
Proof.
  destruct (pad_places_source (PositionPad.mkRect 0 0 200 200) 0 0
              (exec (handleStart Capture.player_hook friendly (Granted 1 1))
                    (mounted (blank true)))
              (PositionPad.initial PositionPad.default_initialPosition)
              (Engine.mkNodes 0 (Some 6%nat) 1 2))
    as (Hpos & _);
    [vm_compute; reflexivity | vm_compute; reflexivity
    | reflexivity | reflexivity |].
  cbv zeta. rewrite Hpos. repeat split.
Defined.

End PadInPlayer.

(** ** The video id of a URL *)

Import Stdlib.Strings.Ascii.

Section VideoId.
Import YouTube.
Local Open Scope string_scope.

Lemma append_cons (c : Ascii.ascii) (a b : string) :
  String c a ++ b = String c (a ++ b).
Proof. reflexivity. Qed.

Lemma append_empty_r (a : string) : a ++ "" = a.
Proof.
  induction a as [|c a IH]; [reflexivity|]. rewrite append_cons, IH.
  reflexivity.
Qed.

Lemma idChars_sound (n : nat) (s v r : string) :
  idChars n s = Some (v, r) ->
  s = v ++ r /\ String.length v = n /\ allIdChars v = true.
Proof.
  revert s v r. induction n as [|n IH]; intros s v r; cbn [idChars].
  - intros [= <- <-]. repeat split.
  - destruct s as [|c s]; [discriminate|].
    destruct (isIdChar c) eqn:Hc; [|discriminate].
    destruct (idChars n s) as [[v' r']|] eqn:E; [|discriminate].
    intros [= <- <-]. destruct (IH _ _ _ E) as (-> & Hlen & Hall).
    rewrite append_cons. cbn [String.length allIdChars].
    rewrite Hc, Hall, Hlen. repeat split.
Qed.

Lemma idChars_complete (v r : string) :
  allIdChars v = true -> idChars (String.length v) (v ++ r) = Some (v, r).
Proof.
  induction v as [|c v IH]; [reflexivity|].
  rewrite append_cons. cbn [String.length allIdChars idChars].
  intros [Hc Hall]%andb_prop. rewrite Hc, (IH Hall). reflexivity.
Qed.

Lemma literal_sound (p s r : string) : literal p s = Some r -> s = p ++ r.
Proof.
  revert s. induction p as [|c p IH]; intros s; cbn [literal].
  - intros [= ->]. reflexivity.
  - destruct s as [|d s]; [discriminate|].
    destruct (Ascii.eqb c d) eqn:E; [|discriminate].
    apply Ascii.eqb_eq in E. subst d. intros H. rewrite (IH _ H). reflexivity.
Qed.

Lemma literal_complete (p r : string) : literal p (p ++ r) = Some r.
Proof.
  induction p as [|c p IH]; [reflexivity|].
  rewrite append_cons. cbn [literal]. rewrite Ascii.eqb_refl. exact IH.
Qed.

Lemma matchHere_sound (ps : list string) (s v : string) :
  matchHere ps s = Some v ->
  exists p rest, p ∈ ps /\ s = p ++ v ++ rest /\ isVideoId v.
Proof.
  induction ps as [|p ps IH]; cbn [matchHere]; [discriminate|].
  destruct (literal p s) as [r|] eqn:El; cbn [mbind option_bind].
  - destruct (idChars 11 r) as [[v' rest]|] eqn:Ei.
    + intros [= ->]. apply literal_sound in El.
      destruct (idChars_sound _ _ _ _ Ei) as (-> & Hlen & Hall).
      exists p, rest. split; [left|split; [exact El|split; assumption]].
    + intros H. destruct (IH H) as (p' & rest & Hin & Hs & Hv).
      exists p', rest. split; [right; exact Hin|split; assumption].
  - intros H. destruct (IH H) as (p' & rest & Hin & Hs & Hv).
    exists p', rest. split; [right; exact Hin|split; assumption].
Qed.

Lemma matchUrl_sound (s v : string) :
  matchUrl s = Some v ->
  exists pre p rest,
    p ∈ alternatives /\ s = pre ++ p ++ v ++ rest /\ isVideoId v.
Proof.
  induction s as [|c s IH]; cbn [matchUrl].
  - destruct (matchHere alternatives "") as [v'|] eqn:E; [|discriminate].
    intros [= ->]. destruct (matchHere_sound _ _ _ E) as (p & rest & H).
    exists "", p, rest. exact H.
  - destruct (matchHere alternatives (String c s)) as [v'|] eqn:E.
    + intros [= ->]. destruct (matchHere_sound _ _ _ E) as (p & rest & H).
      exists "", p, rest. exact H.
    + intros H. destruct (IH H) as (pre & p & rest & Hin & -> & Hv).
      exists (String c pre), p, rest.
      split; [exact Hin | split; [reflexivity | exact Hv]].
Qed.

Lemma length_append (a b : string) :
  String.length (a ++ b) = (String.length a + String.length b)%nat.
Proof.
  induction a as [|c a IH]; [reflexivity|].
  rewrite append_cons. cbn [String.length]. now rewrite IH.
Qed.

Lemma alternatives_length (p : string) :
  p ∈ alternatives -> (9 <= String.length p)%nat.
Proof.
  unfold alternatives. rewrite !elem_of_cons, elem_of_nil.
  intros [-> | [-> | [-> | []]]]; cbn; lia.
Qed.

Lemma matchUrl_short (s : string) :
  (String.length s < 20)%nat -> matchUrl s = None.
Proof.
  intros Hlen. destruct (matchUrl s) as [v|] eqn:E; [|reflexivity].
  destruct (matchUrl_sound _ _ E) as (pre & p & rest & Hin & -> & Hl & _).
  apply alternatives_length in Hin.
  rewrite !length_append, Hl in Hlen. lia.
Qed.

(** X6: whatever [extractVideoId] returns is eleven characters of
    [[a-zA-Z0-9_-]] that stand in the URL right after one of the three
    address forms, or that are the whole URL. *)
Theorem extractVideoId_sound (url v : string) :
  extractVideoId url = Some v ->
  isVideoId v /\
  (url = v \/
   exists pre p rest, p ∈ alternatives /\ url = pre ++ p ++ v ++ rest).
Proof.
  unfold extractVideoId.
  destruct (matchUrl url) as [v'|] eqn:E.
  - intros [= ->].
    destruct (matchUrl_sound _ _ E) as (pre & p & rest & Hin & Hs & Hv).
    split; [exact Hv|]. right. exists pre, p, rest. split; assumption.
  - unfold matchBareId.
    destruct (idChars 11 url) as [[v' [|c r]]|] eqn:Ei; try discriminate.
    intros [= ->]. destruct (idChars_sound _ _ _ _ Ei) as (Hs & Hlen & Hall).
    split; [split; assumption|]. left. rewrite Hs. apply append_empty_r.
Qed.

(** A watch address with a time offset behind the id. *)
Lemma extractVideoId_sound_witness :
  isVideoId "dQw4w9WgXcQ" /\
  ("https://www.youtube.com/watch?v=dQw4w9WgXcQ&t=42s" = "dQw4w9WgXcQ" \/
   exists pre p rest,
     p ∈ alternatives /\
     "https://www.youtube.com/watch?v=dQw4w9WgXcQ&t=42s"
     = pre ++ p ++ "dQw4w9WgXcQ" ++ rest).
Proof.
  apply (extractVideoId_sound
           "https://www.youtube.com/watch?v=dQw4w9WgXcQ&t=42s").
  reflexivity.
Defined.

(** X7: a bare id, eleven characters of the class, is returned as it is;
    a string of fewer than eleven characters has no id. *)
Theorem extractVideoId_bare (s : string) :
  (isVideoId s -> extractVideoId s = Some s) /\
  ((String.length s < 11)%nat -> extractVideoId s = None).
Proof.
  split.
  - intros [Hlen Hall]. unfold extractVideoId.
    rewrite matchUrl_short by lia. unfold matchBareId.
    pose proof (idChars_complete s "" Hall) as H. rewrite Hlen in H.
    rewrite append_empty_r in H. rewrite H. reflexivity.
  - intros Hlen. unfold extractVideoId.
    rewrite matchUrl_short by lia. unfold matchBareId.
    destruct (idChars 11 s) as [[v r]|] eqn:Ei; [|reflexivity].
    destruct (idChars_sound _ _ _ _ Ei) as (-> & Hl & _).
    rewrite length_append in Hlen. lia.
Qed.

Lemma extractVideoId_bare_witness :
  extractVideoId "dQw4w9WgXcQ" = Some "dQw4w9WgXcQ" /\
  extractVideoId "dQw4w9WgXc" = None.
Proof.
  split.
  - apply (extractVideoId_bare "dQw4w9WgXcQ"). split; reflexivity.
  - apply (extractVideoId_bare "dQw4w9WgXc"). cbn. lia.
Defined.

Lemma matchHere_alternative (p v rest : string) :
  p ∈ alternatives -> isVideoId v ->
  matchHere alternatives (p ++ v ++ rest) = Some v.
Proof.
  intros Hin [Hlen Hall].
  pose proof (idChars_complete v rest Hall) as Hid. rewrite Hlen in Hid.
  set (t := v ++ rest) in *.
  unfold alternatives in Hin. rewrite !elem_of_cons, elem_of_nil in Hin.
  unfold alternatives.
  destruct Hin as [-> | [-> | [-> | []]]];
    cbv [String.append];
    cbn [matchHere literal Ascii.eqb Bool.eqb mbind option_bind];
    rewrite Hid; reflexivity.
Qed.

Lemma matchHere_other_start (c : Ascii.ascii) (t : string) :
  Ascii.eqb "y"%char c = false -> matchHere alternatives (String c t) = None.
Proof.
  intros Hc. unfold alternatives.
  cbn [matchHere literal mbind option_bind]. rewrite Hc. reflexivity.
Qed.

(** X8: an address made of any text without the letter y (a scheme, a
    host prefix), one of the three address forms, a video id and anything
    behind it yields that id. *)
Theorem extractVideoId_of_address (pre p v rest : string) :
  p ∈ alternatives ->
  isVideoId v ->
  freeOf "y"%char pre = true ->
  extractVideoId (pre ++ p ++ v ++ rest) = Some v.
Proof.
  intros Hin Hv Hpre. unfold extractVideoId.
  assert (H : matchUrl (pre ++ p ++ v ++ rest) = Some v); [|now rewrite H].
  induction pre as [|c pre IH].
  - change ("" ++ p ++ v ++ rest) with (p ++ v ++ rest).
    destruct (p ++ v ++ rest) as [|d t] eqn:E; cbn [matchUrl];
      rewrite <- E, (matchHere_alternative _ _ _ Hin Hv); reflexivity.
  - cbn [freeOf] in Hpre. apply andb_prop in Hpre as [Hc Hpre].
    apply negb_true_iff in Hc.
    rewrite append_cons. cbn [matchUrl].
    rewrite (matchHere_other_start _ _ Hc). exact (IH Hpre).
Qed.

(** An embed address with a query behind the id. *)
Lemma extractVideoId_of_address_witness :
  extractVideoId ("https://www." ++ "youtube.com/embed/" ++ "dQw4w9WgXcQ"
                  ++ "?rel=0")
  = Some "dQw4w9WgXcQ".
Proof.
  apply extractVideoId_of_address.
  - unfold alternatives. set_solver.
  - split; reflexivity.
  - reflexivity.
Defined.

End VideoId.

(** ** Tracks, streams and the capture hook in full *)

Section CaptureInFull.
Import Capture Reach.

Lemma lookup_markAll_marked (st : TrackState) (ts : list nat)
    (m : gmap nat TrackState) (k : nat) :
  markAll st ts (<[k := st]> m) !! k = Some st.
Proof.
  revert m. induction ts as [|t ts IH]; intros m; cbn [markAll].
  - apply lookup_insert_eq.
  - destruct (decide (t = k)) as [->|Hne].
    + rewrite insert_insert_eq. apply IH.
    + rewrite insert_insert_ne by exact Hne. apply IH.
Qed.

Lemma lookup_markAll_in (st : TrackState) (ts : list nat)
    (m : gmap nat TrackState) (k : nat) :
  k ∈ ts -> markAll st ts m !! k = Some st.
Proof.
  revert m. induction ts as [|t ts IH]; intros m Hin.
  - apply elem_of_nil in Hin. contradiction.
  - cbn [markAll]. apply elem_of_cons in Hin as [->|Hin].
    + apply lookup_markAll_marked.
    + apply IH. exact Hin.
Qed.

Lemma lookup_markAll_out (st : TrackState) (ts : list nat)
    (m : gmap nat TrackState) (k : nat) :
  k ∉ ts -> markAll st ts m !! k = m !! k.
Proof.
  revert m. induction ts as [|t ts IH]; intros m Hout; [reflexivity|].
  apply not_elem_of_cons in Hout as [Hne Hout].
  cbn [markAll]. rewrite IH by exact Hout.
  apply lookup_insert_ne. congruence.
Qed.

Lemma forEach_stopTrack (ts : list nat) (h : Host) :
  forEach stopTrack ts h
  = (Normal tt, with_tracks (markAll ended ts (tracks h)) h).
Proof.
  revert h. induction ts as [|t ts IH];
    intros [ni cs ns es tl ct tr ls pr gd]; [reflexivity|].
  pose proof (IH (mkHost ni cs ns es tl ct (<[t := ended]> tr) ls pr gd))
    as E.
  js_run_in E. cbn [forEach markAll]. js_run. rewrite E. reflexivity.
Qed.

Lemma newTracks_seq (n : nat) (h : Host) :
  newTracks n h
  = (Normal (seq (next_id h) n),
     with_tracks (markAll live (seq (next_id h) n) (tracks h))
       (with_next_id (next_id h + n) h)).
Proof.
  revert h. induction n as [|n IH]; intros [ni cs ns es tl ct tr ls pr gd].
  - js_run. rewrite Nat.add_0_r. reflexivity.
  - pose proof (IH (mkHost (S ni) cs ns es tl ct (<[ni := live]> tr)
                      ls pr gd)) as E.
    js_run_in E. cbn [newTracks seq markAll]. js_run. rewrite E.
    rewrite Nat.add_succ_r. reflexivity.
Qed.

(** The stream a grant creates: fresh identities in a row, all tracks
    live. *)
Lemma getDisplayMedia_granted_eq (n_audio n_video : nat) (ni : nat)
    cs ns es tl ct tr ls pr :
  getDisplayMedia (Granted n_audio n_video)
    (mkHost ni cs ns es tl ct tr ls pr true)
  = (Normal (mkMediaStream ni (seq (S ni) n_audio)
                           (seq (S ni + n_audio) n_video)),
     mkHost (S ni + n_audio + n_video) cs ns es tl ct
       (markAll live (seq (S ni + n_audio) n_video)
          (markAll live (seq (S ni) n_audio) tr))
       ls (S pr) true).
Proof.
  unfold getDisplayMedia. js_run.
  rewrite newTracks_seq. js_run. rewrite newTracks_seq. js_run.
  reflexivity.
Qed.

(** [startCapture] case by case, for a hook that holds no stream. *)
Lemma startCapture_not_supported (v : Variant) (o : DisplayMediaOutcome)
    (h : Host) st er sm sr :
  startCapture v o (h, mkState st er sm false sr)
  = (Normal None, (h, mkState error (Some not_supported) sm false sr)).
Proof. destruct h. reflexivity. Qed.

Lemma startCapture_missing_api (v : Variant) (o : DisplayMediaOutcome)
    ni cs ns es tl ct tr ls pr st er sm :
  startCapture v o (mkHost ni cs ns es tl ct tr ls pr false,
                    mkState st er sm true None)
  = (Normal None, (mkHost ni cs ns es tl ct tr ls pr false,
                   mkState error (Some unknown) sm true None)).
Proof. reflexivity. Qed.

Lemma startCapture_rejected (v : Variant) (e : Thrown)
    ni cs ns es tl ct tr ls pr st er sm :
  startCapture v (Rejected e) (mkHost ni cs ns es tl ct tr ls pr true,
                               mkState st er sm true None)
  = (Normal None, (mkHost ni cs ns es tl ct tr ls (S pr) true,
                   mkState error (Some (classify e)) sm true None)).
Proof. reflexivity. Qed.

Lemma startCapture_no_audio (v : Variant) (n_video : nat)
    ni cs ns es tl ct tr ls pr st er sm :
  startCapture v (Granted 0 n_video)
    (mkHost ni cs ns es tl ct tr ls pr true, mkState st er sm true None)
  = (Normal None,
     (mkHost (S ni + n_video) cs ns es tl ct
        (markAll ended (seq (S ni) n_video)
           (markAll live (seq (S ni) n_video) tr))
        ls (S pr) true,
      mkState error (Some no_audio) sm true None)).
Proof.
  js_run. rewrite getDisplayMedia_granted_eq. js_run.
  cbn [seq app]. rewrite forEach_stopTrack. js_run.
  cbn [markAll]. rewrite !Nat.add_0_r. reflexivity.
Qed.

Lemma startCapture_player (n_audio n_video : nat)
    ni cs ns es tl ct tr ls pr st er sm :
  let s := mkMediaStream ni (seq (S ni) (S n_audio))
             (seq (S ni + S n_audio) n_video) in
  startCapture player_hook (Granted (S n_audio) n_video)
    (mkHost ni cs ns es tl ct tr ls pr true, mkState st er sm true None)
  = (Normal (Some s),
     (mkHost (S ni + S n_audio + n_video) cs ns es tl ct
        (markAll live (seq (S ni + S n_audio) n_video)
           (markAll live (seq (S ni) (S n_audio)) tr))
        (ls ++ [S ni]) (S pr) true,
      mkState capturing None (Some s) true (Some s))).
Proof.
  cbv zeta. js_run. rewrite getDisplayMedia_granted_eq. js_run.
  reflexivity.
Qed.

Lemma startCapture_shared (n_audio n_video : nat)
    ni cs ns es tl ct tr ls pr st er sm :
  let s := mkMediaStream (S ni + S n_audio + n_video)
             (seq (S ni) (S n_audio)) [] in
  startCapture shared_hook (Granted (S n_audio) n_video)
    (mkHost ni cs ns es tl ct tr ls pr true, mkState st er sm true None)
  = (Normal (Some s),
     (mkHost (S (S ni + S n_audio + n_video)) cs ns es tl ct
        (markAll ended (seq (S ni + S n_audio) n_video)
           (markAll live (seq (S ni + S n_audio) n_video)
              (markAll live (seq (S ni) (S n_audio)) tr)))
        (ls ++ [S ni]) (S pr) true,
      mkState capturing None (Some s) true (Some s))).
Proof.
  cbv zeta. js_run. rewrite getDisplayMedia_granted_eq. js_run.
  cbn [seq]. js_run. rewrite forEach_stopTrack. js_run. reflexivity.
Qed.

End CaptureInFull.

Section CaptureOutcomes.
Import Capture Reach.

(** X9: a capture that yields no stream always ends in the error status
    with a classified error, and the classification has a text, different
    for each kind of error.  The hook stores no stream. *)
Theorem capture_failure_is_explained (v : Variant) (o : DisplayMediaOutcome)
    (h : Host) (c : State) :
  streamRef c = None ->
  result (startCapture v o) (h, c) = Normal None ->
  let c' := (exec (startCapture v o) (h, c)).2 in
  status c' = error /\
  streamRef c' = None /\
  (exists e, error_ c' = Some e /\
             errorMessage c' = Some (getErrorMessage e) /\
             getErrorMessage e <> ""%string) /\
  (forall e1 e2, getErrorMessage e1 = getErrorMessage e2 -> e1 = e2).
Proof.
  destruct c as [st er sm sup sr], h as [ni cs ns es tl ct tr ls pr gd].
  cbv [streamRef]. intros -> Hres. cbv zeta. unfold result, exec in *.
  assert (Htext : forall e, getErrorMessage e <> ""%string)
    by (intros []; discriminate).
  assert (Hinj : forall e1 e2,
             getErrorMessage e1 = getErrorMessage e2 -> e1 = e2)
    by (intros [] []; try reflexivity; intros H; discriminate H).
  destruct sup;
    [destruct gd; [destruct o as [[|n_audio] n_video|e]; [| |]|]|].
  - rewrite startCapture_no_audio. cbn [snd status streamRef].
    repeat split; [|exact Hinj]. eexists. repeat split. apply Htext.
  - exfalso. destruct v.
    + pose proof (startCapture_player n_audio n_video ni cs ns es tl ct tr
                    ls pr st er sm) as E. cbv zeta in E.
      rewrite E in Hres. discriminate Hres.
    + pose proof (startCapture_shared n_audio n_video ni cs ns es tl ct tr
                    ls pr st er sm) as E. cbv zeta in E.
      rewrite E in Hres. discriminate Hres.
  - rewrite startCapture_rejected. cbn [snd status streamRef].
    repeat split; [|exact Hinj]. eexists. repeat split. apply Htext.
  - rewrite startCapture_missing_api. cbn [snd status streamRef].
    repeat split; [|exact Hinj]. eexists. repeat split. apply Htext.
  - rewrite startCapture_not_supported. cbn [snd status streamRef].
    repeat split; [|exact Hinj]. eexists. repeat split. apply Htext.
Qed.

(** The sharing is refused in a browser that has the API. *)
Lemma capture_failure_is_explained_witness :
  let c' := (exec (startCapture player_hook
                     (Rejected (ErrorObject "NotAllowedError")))
                  (blank true, initial)).2 in
  status c' = error /\ streamRef c' = None.
Proof.
  destruct (capture_failure_is_explained player_hook
              (Rejected (ErrorObject "NotAllowedError"))
              (blank true) initial) as (Hst & Href & _);
    [reflexivity | reflexivity |].
  split; [exact Hst | exact Href].
Defined.

(** X10: when the browser rejects the request, one prompt has been shown,
    no track exists that did not exist before, and the error is
    permission-denied for the names NotAllowedError and
    PermissionDeniedError, no-audio for NotFoundError, and unknown for any
    other name and for a thrown value that is not an [Error]. *)
Theorem rejection_is_classified (v : Variant) (e : Thrown) (h : Host)
    (c : State) :
  streamRef c = None ->
  isSupported c = true ->
  has_getDisplayMedia h = true ->
  let w' := exec (startCapture v (Rejected e)) (h, c) in
  result (startCapture v (Rejected e)) (h, c) = Normal None /\
  prompts w'.1 = S (prompts h) /\
  tracks w'.1 = tracks h /\
  status w'.2 = error /\
  error_ w'.2
  = Some match e with
         | ErrorObject name =>
             if bool_decide (name = "NotAllowedError"%string
                             \/ name = "PermissionDeniedError"%string)
             then permission_denied
             else if bool_decide (name = "NotFoundError"%string)
                  then no_audio
                  else unknown
         | NonError => unknown
         end.
Proof.
  destruct c as [st er sm sup sr], h as [ni cs ns es tl ct tr ls pr gd].
  cbv [streamRef isSupported has_getDisplayMedia]. intros -> -> ->.
  cbv zeta. unfold result, exec. rewrite startCapture_rejected.
  cbn [fst snd prompts tracks status error_].
  repeat split. f_equal. destruct e as [name|]; [|reflexivity].
  unfold classify.
  destruct (String.eqb_spec name "NotAllowedError") as [->|H1];
    [reflexivity|].
  destruct (String.eqb_spec name "PermissionDeniedError") as [->|H2];
    [reflexivity|].
  cbn [orb]. rewrite bool_decide_eq_false_2 by (intros [?|?]; congruence).
  destruct (String.eqb_spec name "NotFoundError") as [->|H3];
    [reflexivity|].
  rewrite bool_decide_eq_false_2 by exact H3. reflexivity.
Qed.

(** An older browser rejects with the name PermissionDeniedError. *)
Lemma rejection_is_classified_witness :
  error_ (exec (startCapture shared_hook
                  (Rejected (ErrorObject "PermissionDeniedError")))
               (blank true, initial)).2
  = Some permission_denied.
Proof.
  destruct (rejection_is_classified shared_hook
              (ErrorObject "PermissionDeniedError") (blank true) initial)
    as (_ & _ & _ & _ & Herr); [reflexivity | reflexivity | reflexivity |].
  exact Herr.
Defined.

(** X11: when the user shares without audio, the capture fails with
    no-audio and every track of the granted stream has been stopped: a
    track that is live afterwards was live before. *)
Theorem grant_without_audio_is_released (v : Variant) (n_video : nat)
    (h : Host) (c : State) :
  streamRef c = None ->
  isSupported c = true ->
  has_getDisplayMedia h = true ->
  let w' := exec (startCapture v (Granted 0 n_video)) (h, c) in
  result (startCapture v (Granted 0 n_video)) (h, c) = Normal None /\
  status w'.2 = error /\
  error_ w'.2 = Some no_audio /\
  streamRef w'.2 = None /\
  listeners w'.1 = listeners h /\
  forall t, tracks w'.1 !! t = Some live -> tracks h !! t = Some live.
Proof.
  destruct c as [st er sm sup sr], h as [ni cs ns es tl ct tr ls pr gd].
  cbv [streamRef isSupported has_getDisplayMedia]. intros -> -> ->.
  cbv zeta. unfold result, exec. rewrite startCapture_no_audio.
  cbn [fst snd tracks status error_ streamRef listeners].
  repeat split. intros t Hlive.
  destruct (decide (t ∈ seq (S ni) n_video)) as [Hin|Hout].
  - rewrite lookup_markAll_in in Hlive by exact Hin. discriminate Hlive.
  - rewrite !lookup_markAll_out in Hlive by exact Hout. exact Hlive.
Qed.

(** A tab shared with its picture only. *)
Lemma grant_without_audio_is_released_witness :
  let w' := exec (startCapture player_hook (Granted 0 1))
                 (blank true, initial) in
  error_ w'.2 = Some no_audio /\ tracks w'.1 !! 1%nat = Some ended.
Proof.
  destruct (grant_without_audio_is_released player_hook 1 (blank true)
              initial) as (_ & _ & Herr & _);
    [reflexivity | reflexivity | reflexivity |].
  split; [exact Herr | reflexivity].
Defined.

End CaptureOutcomes.

Section CaptureSuccess.
Import Capture Reach.

(** X12: a grant with audio.  The hook returns a stream, keeps it in its
    state and in its ref, is capturing without an error, and listens for
    the end of the first audio track only.  All audio tracks are live.  The
    player's copy of the hook returns the granted stream with its video
    tracks live; the shared copy returns a stream without video tracks and
    leaves no granted video track live. *)
Theorem capture_success (v : Variant) (n_audio n_video : nat) (h : Host)
    (c : State) :
  streamRef c = None ->
  isSupported c = true ->
  has_getDisplayMedia h = true ->
  let w' := exec (startCapture v (Granted (S n_audio) n_video)) (h, c) in
  exists s first,
    result (startCapture v (Granted (S n_audio) n_video)) (h, c)
    = Normal (Some s) /\
    streamRef w'.2 = Some s /\
    stream w'.2 = Some s /\
    status w'.2 = capturing /\
    error_ w'.2 = None /\
    prompts w'.1 = S (prompts h) /\
    head (audioTracks s) = Some first /\
    listeners w'.1 = listeners h ++ [first] /\
    length (audioTracks s) = S n_audio /\
    Forall (fun t => tracks w'.1 !! t = Some live) (audioTracks s) /\
    match v with
    | player_hook =>
        length (videoTracks s) = n_video /\
        Forall (fun t => tracks w'.1 !! t = Some live) (videoTracks s)
    | shared_hook =>
        videoTracks s = [] /\
        forall t, tracks w'.1 !! t = Some live ->
                  t ∈ audioTracks s \/ tracks h !! t = Some live
    end.
Proof.
  destruct c as [st er sm sup sr], h as [ni cs ns es tl ct tr ls pr gd].
  cbv [streamRef isSupported has_getDisplayMedia]. intros -> -> ->.
  cbv zeta. unfold result, exec. destruct v.
  - pose proof (startCapture_player n_audio n_video ni cs ns es tl ct tr
                  ls pr st er sm) as E. cbv zeta in E. rewrite E. clear E.
    eexists. exists (S ni).
    cbn [fst snd streamRef stream status error_ prompts listeners tracks
         audioTracks videoTracks].
    repeat split.
    + apply length_seq.
    + apply Forall_forall. intros t Hin.
      destruct (decide (t ∈ seq (S ni + S n_audio) n_video)) as [Hv|Hv].
      * apply lookup_markAll_in. exact Hv.
      * rewrite lookup_markAll_out by exact Hv.
        apply lookup_markAll_in. exact Hin.
    + apply length_seq.
    + apply Forall_forall. intros t Hin. apply lookup_markAll_in. exact Hin.
  - pose proof (startCapture_shared n_audio n_video ni cs ns es tl ct tr
                  ls pr st er sm) as E. cbv zeta in E. rewrite E. clear E.
    eexists. exists (S ni).
    cbn [fst snd streamRef stream status error_ prompts listeners tracks
         audioTracks videoTracks].
    repeat split.
    + apply length_seq.
    + apply Forall_forall. intros t Hin.
      assert (Hv : t ∉ seq (S ni + S n_audio) n_video).
      { cbn [audioTracks] in Hin. rewrite elem_of_seq in *. lia. }
      rewrite !lookup_markAll_out by exact Hv.
      apply lookup_markAll_in. exact Hin.
    + intros t Hlive.
      destruct (decide (t ∈ seq (S ni + S n_audio) n_video)) as [Hv|Hv].
      * rewrite lookup_markAll_in in Hlive by exact Hv. discriminate Hlive.
      * rewrite !lookup_markAll_out in Hlive by exact Hv.
        destruct (decide (t ∈ seq (S ni) (S n_audio))) as [Ha|Ha];
          [left; exact Ha|].
        right. rewrite lookup_markAll_out in Hlive by exact Ha. exact Hlive.
Qed.

(** A tab shared with one audio and one video track, through the shared
    copy of the hook. *)
Lemma capture_success_witness :
  let w' := exec (startCapture shared_hook (Granted 1 1))
                 (blank true, initial) in
  exists s,
    streamRef w'.2 = Some s /\ status w'.2 = capturing /\
    videoTracks s = [].
Proof.
  destruct (capture_success shared_hook 0 1 (blank true) initial)
    as (s & first & _ & Href & _ & Hst & _ & _ & _ & _ & _ & _ & Hv & _);
    [reflexivity | reflexivity | reflexivity |].
  exists s. split; [exact Href | split; [exact Hst | exact Hv]].
Defined.

(** X13: a browser without [getDisplayMedia].  Once the support check has
    run, [startCapture] fails with not-supported; before it has run (the
    hook still says supported), it fails with unknown.  In both cases no
    prompt is shown, nothing changes in the browser, and after the check the
    start control is disabled whatever the statuses. *)
Theorem unsupported_browser (v : Variant) (o : DisplayMediaOutcome)
    (h : Host) :
  has_getDisplayMedia h = false ->
  let checked := exec checkSupport (h, initial) in
  startCapture v o checked
  = (Normal None,
     (h, mkState error (Some not_supported) None false None)) /\
  startCapture v o (h, initial)
  = (Normal None, (h, mkState error (Some unknown) None true None)) /\
  forall captureStatus spatialStatus,
    Controls.canStart (isSupported checked.2) captureStatus spatialStatus
    = false.
Proof.
  destruct h as [ni cs ns es tl ct tr ls pr gd].
  cbv [has_getDisplayMedia]. intros ->. repeat split.
Qed.

Lemma unsupported_browser_witness :
  startCapture player_hook (Granted 1 1) (blank false, initial)
  = (Normal None,
     (blank false, mkState error (Some unknown) None true None)).
Proof.
  destruct (unsupported_browser player_hook (Granted 1 1) (blank false))
    as (_ & H & _); [reflexivity | exact H].
Defined.

(** [stopCapture] as an equation. *)
Lemma stopCapture_eq (h : Host) (c : State) :
  stopCapture (h, c)
  = (Normal tt,
     (match streamRef c with
      | Some s => with_tracks (markAll ended (getTracks s) (tracks h)) h
      | None => h
      end,
      mkState idle None None (isSupported c) None)).
Proof.
  destruct c as [st er sm sup [s|]], h as [ni cs ns es tl ct tr ls pr gd].
  - js_run.
    pose proof (forEach_stopTrack (audioTracks s ++ videoTracks s)
                  (mkHost ni cs ns es tl ct tr ls pr gd)) as E.
    js_run_in E. rewrite E. reflexivity.
  - reflexivity.
Qed.

(** X14: [stopCapture] never throws and always leaves the hook idle,
    without error and without stream.  Every track of the stream it held is
    ended afterwards, no other track changes, and a second [stopCapture]
    changes nothing. *)
Theorem stopCapture_releases (h : Host) (c : State) :
  let w' := exec stopCapture (h, c) in
  result stopCapture (h, c) = Normal tt /\
  w'.2 = mkState idle None None (isSupported c) None /\
  (forall s t, streamRef c = Some s -> t ∈ getTracks s ->
               tracks w'.1 !! t = Some ended) /\
  (forall t, t ∉ from_option getTracks [] (streamRef c) ->
             tracks w'.1 !! t = tracks h !! t) /\
  stopCapture w' = (Normal tt, w').
Proof.
  cbv zeta. unfold result, exec. rewrite stopCapture_eq. cbn [fst snd].
  split; [reflexivity|]. split; [reflexivity|]. split; [|split].
  - intros s t -> Hin. destruct h. cbn [with_tracks tracks].
    apply lookup_markAll_in. exact Hin.
  - intros t Hout. destruct (streamRef c) as [s|]; [|reflexivity].
    destruct h. cbn [with_tracks tracks from_option] in *.
    apply lookup_markAll_out. exact Hout.
  - rewrite stopCapture_eq. reflexivity.
Qed.

(** Stopping a hook that holds a stream of two tracks. *)
Lemma stopCapture_releases_witness :
  let s := mkMediaStream 0 [1%nat] [2%nat] in
  let w := (blank true, mkState capturing None (Some s) true (Some s)) in
  status (exec stopCapture w).2 = idle /\
  tracks (exec stopCapture w).1 !! 1%nat = Some ended /\
  tracks (exec stopCapture w).1 !! 2%nat = Some ended.
Proof.
  destruct (stopCapture_releases (blank true)
              (mkState capturing None
                 (Some (mkMediaStream 0 [1%nat] [2%nat])) true
                 (Some (mkMediaStream 0 [1%nat] [2%nat]))))
    as (_ & Hs & Ht & _).
  split; [rewrite Hs; reflexivity|].
  split; apply (Ht (mkMediaStream 0 [1%nat] [2%nat])); try reflexivity;
    unfold getTracks; cbn [audioTracks videoTracks app];
    [apply list_elem_of_here
    | apply list_elem_of_further, list_elem_of_here].
Defined.

End CaptureSuccess.

Section CaptureEvents.
Import Capture Reach.

(** The end of a track, as an equation. *)
Lemma trackEnded_eq (t : nat) (h : Host) (c : State) :
  trackEnded t (h, c)
  = (Normal tt,
     match tracks h !! t with
     | Some live =>
         (with_tracks (<[t := ended]> (tracks h)) h,
          if bool_decide (t ∈ listeners h)
          then mkState idle (error_ c) None (isSupported c) None
          else c)
     | _ => (h, c)
     end).
Proof.
  destruct c as [st er sm sup sr], h as [ni cs ns es tl ct tr ls pr gd].
  js_run. destruct (tr !! t) as [[|]|]; [|reflexivity|reflexivity].
  js_run. destruct (bool_decide (t ∈ ls)); reflexivity.
Qed.

(** X15: after a grant with audio, in a browser whose earlier listeners sit
    on earlier tracks, the hook reacts to the end of the first audio track
    of its stream and to no other track of the stream: the first audio
    track puts the hook back to idle without stream and without error, any
    other track of the stream leaves the hook capturing. *)
Theorem only_first_audio_track_is_watched (v : Variant)
    (n_audio n_video : nat) (h : Host) (c : State) :
  streamRef c = None ->
  isSupported c = true ->
  has_getDisplayMedia h = true ->
  Forall (fun t => (t < next_id h)%nat) (listeners h) ->
  let w1 := exec (startCapture v (Granted (S n_audio) n_video)) (h, c) in
  exists s first,
    streamRef w1.2 = Some s /\
    head (audioTracks s) = Some first /\
    (exec (trackEnded first) w1).2 = mkState idle None None true None /\
    forall t, t ∈ getTracks s -> t <> first ->
              (exec (trackEnded t) w1).2 = w1.2.
Proof.
  destruct c as [st er sm sup sr], h as [ni cs ns es tl ct tr ls pr gd].
  cbv [streamRef isSupported has_getDisplayMedia next_id listeners].
  intros -> -> -> Hold. cbv zeta. unfold exec.
  assert (Hfirst : bool_decide (S ni ∈ ls ++ [S ni]) = true)
    by (apply bool_decide_eq_true_2; set_solver).
  assert (Hother : forall t, (ni < t)%nat -> t <> S ni ->
                             bool_decide (t ∈ ls ++ [S ni]) = false).
  { intros t Hlt Hne. apply bool_decide_eq_false_2.
    rewrite elem_of_app, list_elem_of_singleton. intros [Hin|Heq]; [|lia].
    rewrite Forall_forall in Hold. specialize (Hold _ Hin). lia. }
  destruct v.
  - pose proof (startCapture_player n_audio n_video ni cs ns es tl ct tr
                  ls pr st er sm) as E. cbv zeta in E. rewrite E. clear E.
    eexists. exists (S ni). cbn [fst snd streamRef audioTracks].
    split; [reflexivity|]. split; [reflexivity|]. split.
    + rewrite trackEnded_eq. cbn [snd tracks listeners error_ isSupported].
      rewrite Hfirst.
      destruct (markAll live _ _ !! S ni) as [[|]|] eqn:El; try reflexivity;
        exfalso; revert El;
        (rewrite lookup_markAll_out by (rewrite elem_of_seq; lia));
        (rewrite lookup_markAll_in by (rewrite elem_of_seq; lia));
        discriminate.
    + intros t Hin Hne. rewrite trackEnded_eq.
      cbn [snd tracks listeners error_ isSupported].
      assert (Hlt : (ni < t)%nat).
      { unfold getTracks in Hin. cbn [audioTracks videoTracks] in Hin.
        rewrite elem_of_app, !elem_of_seq in Hin. lia. }
      rewrite (Hother t Hlt Hne).
      destruct (markAll live _ _ !! t) as [[|]|]; reflexivity.
  - pose proof (startCapture_shared n_audio n_video ni cs ns es tl ct tr
                  ls pr st er sm) as E. cbv zeta in E. rewrite E. clear E.
    eexists. exists (S ni). cbn [fst snd streamRef audioTracks].
    split; [reflexivity|]. split; [reflexivity|]. split.
    + rewrite trackEnded_eq. cbn [snd tracks listeners error_ isSupported].
      rewrite Hfirst.
      destruct (markAll ended _ _ !! S ni) as [[|]|] eqn:El; try reflexivity;
        exfalso; revert El;
        (rewrite !lookup_markAll_out by (rewrite elem_of_seq; lia));
        (rewrite lookup_markAll_in by (rewrite elem_of_seq; lia));
        discriminate.
    + intros t Hin Hne. rewrite trackEnded_eq.
      cbn [snd tracks listeners error_ isSupported].
      assert (Hlt : (ni < t)%nat).
      { unfold getTracks in Hin. cbn [audioTracks videoTracks] in Hin.
        rewrite elem_of_app, !elem_of_seq in Hin.
        destruct Hin as [Hin|Hin]; [lia|]. apply elem_of_nil in Hin.
        contradiction. }
      rewrite (Hother t Hlt Hne).
      destruct (markAll ended _ _ !! t) as [[|]|]; reflexivity.
Qed.

(** One audio and one video track in an empty browser: the end of the
    video track, track 2, leaves the hook as it is. *)
Lemma only_first_audio_track_is_watched_witness :
  let w1 := exec (startCapture player_hook (Granted 1 1))
                 (blank true, initial) in
  (exec (trackEnded 1) w1).2 = mkState idle None None true None /\
  (exec (trackEnded 2) w1).2 = w1.2.
Proof.
  destruct (only_first_audio_track_is_watched player_hook 0 1 (blank true)
              initial)
    as (s & first & Href & Hhead & Hend & Hrest);
    [reflexivity | reflexivity | reflexivity | constructor |].
  injection Href as <-. injection Hhead as <-.
  split; [exact Hend|]. apply Hrest; [|discriminate].
  cbn. set_solver.
Defined.

(** The state of the hook after one event, for the invariant below. *)
Lemma capture_mirror_step (w w' : Host * State) :
  capture_step w w' ->
  capture_inv w ->
  stream w.2 = streamRef w.2 /\
  (streamRef w.2 <> None <-> status w.2 = capturing) ->
  stream w'.2 = streamRef w'.2 /\
  (streamRef w'.2 <> None <-> status w'.2 = capturing).
Proof.
  intros Hstep [Hsup Hgd] [Hmirror Hcap].
  destruct Hstep as [[h c] | v o [h c] | [h c] | t [h c] | h' [h c] Hsame];
    cbn [fst snd] in *.
  - destruct c as [st er sm sup sr], h as [ni cs ns es tl ct tr ls pr gd].
    split; [exact Hmirror | exact Hcap].
  - destruct c as [st er sm sup [s|]], h as [ni cs ns es tl ct tr ls pr gd];
      cbn [stream streamRef status isSupported has_getDisplayMedia] in *.
    + assert (gd = true) as -> by (apply Hgd; discriminate).
      assert (sup = true) as -> by (destruct Hsup; congruence).
      split; [exact Hmirror | exact Hcap].
    + subst sm. unfold exec.
      destruct sup;
        [destruct gd; [destruct o as [[|n_audio] n_video|e]; [|destruct v|]|]|].
      * rewrite startCapture_no_audio. cbn. split; [reflexivity|].
        split; [intros H; contradiction H; reflexivity | discriminate].
      * pose proof (startCapture_player n_audio n_video ni cs ns es tl ct
                      tr ls pr st er None) as E. cbv zeta in E. rewrite E.
        cbn. split; [reflexivity|]. split; [reflexivity | discriminate].
      * pose proof (startCapture_shared n_audio n_video ni cs ns es tl ct
                      tr ls pr st er None) as E. cbv zeta in E. rewrite E.
        cbn. split; [reflexivity|]. split; [reflexivity | discriminate].
      * rewrite startCapture_rejected. cbn. split; [reflexivity|].
        split; [intros H; contradiction H; reflexivity | discriminate].
      * rewrite startCapture_missing_api. cbn. split; [reflexivity|].
        split; [intros H; contradiction H; reflexivity | discriminate].
      * rewrite startCapture_not_supported. cbn. split; [reflexivity|].
        split; [intros H; contradiction H; reflexivity | discriminate].
  - unfold exec. rewrite stopCapture_eq. cbn. split; [reflexivity|].
    split; [intros H; contradiction H; reflexivity | discriminate].
  - unfold exec. rewrite trackEnded_eq. cbn [snd].
    destruct (tracks h !! t) as [[|]|]; cbn [snd];
      [|split; assumption|split; assumption].
    destruct (bool_decide (t ∈ listeners h)); [|split; assumption].
    cbn. split; [reflexivity|].
    split; [intros H; contradiction H; reflexivity | discriminate].
  - split; assumption.
Qed.

(** X16: in every state the capture hook reaches, the [stream] it reports
    is the stream in its ref, and it holds a stream exactly when its status
    is capturing. *)
Theorem capture_status_reflects_stream (h0 : Host) (w : Host * State) :
  capture_reachable h0 w ->
  stream w.2 = streamRef w.2 /\
  (streamRef w.2 <> None <-> status w.2 = capturing).
Proof.
  intros Hreach.
  enough (H : capture_inv w /\
              (stream w.2 = streamRef w.2 /\
               (streamRef w.2 <> None <-> status w.2 = capturing)))
    by exact (proj2 H).
  revert w Hreach. unfold capture_reachable.
  apply (rtc_ind_r (fun w => capture_inv w /\
                             (stream w.2 = streamRef w.2 /\
                              (streamRef w.2 <> None <->
                               status w.2 = capturing)))).
  - split; [apply capture_inv_initial|]. cbn. split; [reflexivity|].
    split; [intros H; contradiction H; reflexivity | discriminate].
  - intros w w' _ Hstep [Hinv Hm]. split.
    + exact (capture_inv_step _ _ Hstep Hinv).
    + exact (capture_mirror_step _ _ Hstep Hinv Hm).
Qed.

(** The hook after a grant and the end of its audio track. *)
Lemma capture_status_reflects_stream_witness :
  let w := exec (trackEnded 1)
             (exec (startCapture player_hook (Granted 1 1))
                   (blank true, initial)) in
  stream w.2 = streamRef w.2 /\
  (streamRef w.2 <> None <-> status w.2 = capturing).
Proof.
  apply (capture_status_reflects_stream (blank true)).
  eapply rtc_l; [apply (step_startCapture player_hook (Granted 1 1))|].
  apply rtc_once. apply step_trackEnded.
Defined.

End CaptureEvents.

(** ** The engine hook in full *)

Section EngineInFull.
Import Engine SpatialAudio Reach.

(** The stream ref follows the status: one event. *)
Lemma engine_stream_step (options : UseSpatialAudioOptions)
    (w w' : Host * State) :
  engine_step options w w' ->
  (streamRef w.2 <> None <-> status w.2 = active) ->
  engine_inv w.2 ->
  (streamRef w'.2 <> None <-> status w'.2 = active).
Proof.
  intros Hstep. destruct Hstep as
    [env [h s] | stream [h s] | [h s] | px py height [h s] | value [h s]
    | [h s] | h' [h s]];
    unfold engine_inv; cbn [snd]; intros Href Hinv.
  - destruct s as [st pos g [[c [src|] p gn]|] sr];
      cbv [nodesRef status source streamRef] in *;
      [exact Href | exact Href |].
    destruct env as [[] [] [] [] []]; js_run;
      rewrite ?lookup_insert_eq; js_run;
      (split; [intros H; apply Href in H; destruct Hinv; congruence
              | discriminate]).
  - destruct s as [st pos g [[c [src|] p gn]|] sr],
      stream as [sid [|t ts] vs];
      cbv [nodesRef status source streamRef] in *; js_run;
      try exact Href; (split; [reflexivity | discriminate]).
  - destruct s as [st pos g [[c [src|] p gn]|] sr];
      cbv [nodesRef status source streamRef] in *; js_run;
      try exact Href;
      (split; [intros H; contradiction H; reflexivity | discriminate]).
  - destruct s as [st pos g [[c [src|] p gn]|] sr];
      cbv [nodesRef status source streamRef] in *; js_run; exact Href.
  - destruct s as [st pos g [[c [src|] p gn]|] sr];
      cbv [nodesRef status source streamRef] in *; js_run; exact Href.
  - destruct s as [st pos g [[c [src|] p gn]|] sr];
      cbv [nodesRef status source streamRef] in *; js_run;
      try exact Href;
      (split; [intros H; contradiction H; reflexivity | discriminate]).
  - exact Href.
Qed.

(** X17: in every state the engine hook reaches, the status tells what the
    hook holds.  It holds no nodes exactly when idle or in error; nodes
    without a source exactly when ready; nodes with a source exactly when
    active; and a stream in its ref exactly when active. *)
Theorem status_reflects_graph (options : UseSpatialAudioOptions) (h0 : Host)
    (w : Host * State) :
  engine_reachable options h0 w ->
  (nodesRef w.2 = None <-> status w.2 = idle \/ status w.2 = error) /\
  (nodesRef w.2 ≫= source = None /\ nodesRef w.2 <> None
   <-> status w.2 = ready) /\
  (nodesRef w.2 ≫= source <> None <-> status w.2 = active) /\
  (streamRef w.2 <> None <-> status w.2 = active).
Proof.
  intros Hreach.
  enough (H : engine_inv w.2 /\
              (streamRef w.2 <> None <-> status w.2 = active)).
  { destruct H as [Hinv Href]. unfold engine_inv in Hinv.
    destruct (nodesRef w.2) as [[c [src|] p gn]|];
      cbn [source mbind option_bind] in *;
      repeat split; try exact Href; try discriminate; try tauto;
      try (intros; congruence);
      try (intros [?|?]; congruence);
      try (intros [? ?]; congruence);
      try (intros H; contradiction H; reflexivity).
    all: destruct Hinv; intros; congruence. }
  revert w Hreach. unfold engine_reachable.
  apply (rtc_ind_r (fun w => engine_inv w.2 /\
                             (streamRef w.2 <> None <->
                              status w.2 = active))).
  - split; [apply engine_inv_initial|]. cbn.
    split; [intros H; contradiction H; reflexivity | discriminate].
  - intros w w' _ Hstep [Hinv Href]. split.
    + exact (engine_inv_step _ _ _ Hstep Hinv).
    + exact (engine_stream_step _ _ _ Hstep Href Hinv).
Qed.

(** The player's engine after a start and a stop of the stream. *)
Lemma status_reflects_graph_witness :
  let w := exec disconnectStream
             (exec (connectStream (mkMediaStream 10 [11%nat] [12%nat]))
                (exec (initialize default_options friendly)
                      (blank true, initial default_options))) in
  (nodesRef w.2 ≫= source = None /\ nodesRef w.2 <> None
   <-> status w.2 = ready) /\
  (streamRef w.2 <> None <-> status w.2 = active).
Proof.
  intros w.
  destruct (status_reflects_graph default_options (blank true) w)
    as (_ & Hready & _ & Href).
  - eapply rtc_l; [apply step_initialize with (env := friendly)|].
    eapply rtc_l; [apply step_connectStream|].
    eapply rtc_l; [apply step_disconnectStream|]. apply rtc_refl.
  - split; [exact Hready | exact Href].
Defined.

End EngineInFull.

Section EngineOperations.
Import Engine SpatialAudio Reach.



(** X19: what a successful [initialize] builds: a running context, a
    panner with the options where they are given and the defaults where
    they are not, with the full cone (360, 360, outer gain 0) and placed at
    (0, 0, 1), a gain node at the initial gain, no connection, and, where
    the browser has the parameters, a listener at the origin that faces
    (0, 0, -1) with (0, 1, 0) up. *)
Theorem initialize_builds_graph (options : UseSpatialAudioOptions)
    (env : AudioEnv) (h : Host) (s : State) :
  nodesRef s = None ->
  result (initialize options env) (h, s) = Normal true ->
  let c := next_id h in
  let p := S c in
  let g := S (S c) in
  let w' := exec (initialize options env) (h, s) in
  nodesRef w'.2 = Some (mkNodes c None p g) /\
  contexts w'.1 !! c = Some running /\
  nodes w'.1 !! p
  = Some (PannerNode c
            {| panningModel :=
                 default HRTF (opt_panningModel (config options));
               distanceModel :=
                 default inverse (opt_distanceModel (config options));
               maxDistance := default 10 (opt_maxDistance (config options));
               refDistance := default 1 (opt_refDistance (config options));
               rolloffFactor :=
                 default 1 (opt_rolloffFactor (config options));
               coneInnerAngle := 360;
               coneOuterAngle := 360;
               coneOuterGain := 0 |}) /\
  nodes w'.1 !! g = Some (GainNode c) /\
  edges w'.1 = edges h /\
  timeline w'.1
  = timeline h ++
    [SetValue (positionX p) 0; SetValue (positionY p) 0;
     SetValue (positionZ p) 1; SetValue (gainParam g) (initialGain options)]
    ++ (if listener_has_position env
        then [SetValue (listenerParam c l_positionX) 0;
              SetValue (listenerParam c l_positionY) 0;
              SetValue (listenerParam c l_positionZ) 0]
        else [])
    ++ (if listener_has_forward env
        then [SetValue (listenerParam c l_forwardX) 0;
              SetValue (listenerParam c l_forwardY) 0;
              SetValue (listenerParam c l_forwardZ) (-1);
              SetValue (listenerParam c l_upX) 0;
              SetValue (listenerParam c l_upY) 1;
              SetValue (listenerParam c l_upZ) 0]
        else []).
Proof.
  destruct s as [st pos g nr sr], h as [ni cs ns es tl ct tr ls pr gd],
    options as [[md rd rf pm dm] ig].
  cbv [nodesRef]. intros -> Hres. cbv zeta.
  destruct env as [[] sus res lp lf]; [|discriminate Hres].
  js_run_in Hres. js_run. rewrite lookup_insert_eq in *.
  destruct sus, res, lp, lf; try discriminate Hres; js_run;
    rewrite <- ?app_assoc; cbn [app];
    (split; [reflexivity|]); (split; [apply lookup_insert_eq|]);
    (split; [rewrite lookup_insert_ne by lia; apply lookup_insert_eq|]);
    (split; [apply lookup_insert_eq|]); split; reflexivity.
Qed.

(** The player's engine: HRTF panning, inverse distance law, gain 1. *)
Lemma initialize_builds_graph_witness :
  let w' := exec (initialize default_options friendly)
                 (blank true, initial default_options) in
  nodes w'.1 !! 1%nat
  = Some (PannerNode 0 (mkPannerAttributes HRTF inverse 10 1 1 360 360 0)) /\
  nodes w'.1 !! 2%nat = Some (GainNode 0).
Proof.
  destruct (initialize_builds_graph default_options friendly (blank true)
              (initial default_options))
    as (_ & _ & Hp & Hg & _); [reflexivity | reflexivity |].
  split; [exact Hp | exact Hg].
Defined.

End EngineOperations.

Section EngineWiring.
Import Engine SpatialAudio Reach.

(** X20: connecting a stream to an active engine replaces the source.  The
    new source node carries the new stream, the engine stays active, and
    the connections afterwards are the three of the new chain (source to
    panner, panner to gain, gain to destination) and those earlier ones
    that do not leave the old source, the panner or the gain node. *)
Theorem connectStream_replaces_source (h : Host) (s : State)
    (n : SpatialAudioNodes) (old : nat) (stream : MediaStream) :
  nodesRef s = Some n ->
  source n = Some old ->
  audioTracks stream <> [] ->
  let new := next_id h in
  let w' := exec (connectStream stream) (h, s) in
  result (connectStream stream) (h, s) = Normal tt /\
  status w'.2 = active /\
  nodesRef w'.2
  = Some (mkNodes (context n) (Some new) (panner n) (gain_node n)) /\
  streamRef w'.2 = Some stream /\
  nodes w'.1 !! new = Some (MediaStreamAudioSourceNode (context n) stream) /\
  contexts w'.1 = contexts h /\
  forall e,
    e ∈ edges w'.1 <->
    (e ∈ edges h /\ e.1 <> old /\ e.1 <> panner n /\ e.1 <> gain_node n)
    \/ e ∈ [(new, ToNode (panner n));
            (panner n, ToNode (gain_node n));
            (gain_node n, ToDestination (context n))].
Proof.
  destruct s as [st pos g nr sr], h as [ni cs ns es tl ct tr ls pr gd],
    n as [c src p gn], stream as [sid audio vs].
  cbv [nodesRef source audioTracks]. intros -> -> Hs.
  destruct audio as [|t ts]; [contradiction|].
  cbv zeta. js_run.
  split; [reflexivity|]. split; [reflexivity|]. split; [reflexivity|].
  split; [reflexivity|]. split; [apply lookup_insert_eq|].
  split; [reflexivity|].
  intros e. rewrite <- !app_assoc. cbn [app].
  rewrite elem_of_app, !list_elem_of_filter. tauto.
Qed.

(** An active engine of the player takes a second stream. *)
Lemma connectStream_replaces_source_witness :
  let w := exec (connectStream (mkMediaStream 10 [11%nat] []))
             (exec (initialize default_options friendly)
                   (blank true, initial default_options)) in
  let w' := exec (connectStream (mkMediaStream 20 [21%nat] [])) (w.1, w.2) in
  status w'.2 = active /\
  nodesRef w'.2 = Some (mkNodes 0 (Some 4%nat) 1 2) /\
  streamRef w'.2 = Some (mkMediaStream 20 [21%nat] []).
Proof.
  intros w.
  destruct (connectStream_replaces_source w.1 w.2 (mkNodes 0 (Some 3%nat) 1 2)
              3 (mkMediaStream 20 [21%nat] []))
    as (_ & Hst & Hn & Hr & _);
    [vm_compute; reflexivity | reflexivity | discriminate |].
  split; [exact Hst | split; [exact Hn | exact Hr]].
Defined.

(** X21: [disconnectStream] on an active engine takes away every connection
    that leaves the source, the panner or the gain node, and nothing else:
    the nodes and the context stay as they are, the hook forgets the source
    and the stream and is ready. *)
Theorem disconnectStream_unwires (h : Host) (s : State)
    (n : SpatialAudioNodes) (src : nat) :
  nodesRef s = Some n ->
  source n = Some src ->
  let w' := exec disconnectStream (h, s) in
  result disconnectStream (h, s) = Normal tt /\
  status w'.2 = ready /\
  nodesRef w'.2 = Some (mkNodes (context n) None (panner n) (gain_node n)) /\
  streamRef w'.2 = None /\
  nodes w'.1 = nodes h /\
  contexts w'.1 = contexts h /\
  timeline w'.1 = timeline h /\
  forall e,
    e ∈ edges w'.1 <->
    e ∈ edges h /\ e.1 <> src /\ e.1 <> panner n /\ e.1 <> gain_node n.
Proof.
  destruct s as [st pos g nr sr], h as [ni cs ns es tl ct tr ls pr gd],
    n as [c src' p gn].
  cbv [nodesRef source]. intros -> ->. cbv zeta. js_run.
  do 7 (split; [reflexivity|]).
  intros e. rewrite !list_elem_of_filter. tauto.
Qed.

(** The player's engine, connected and disconnected: no connection is
    left. *)
Lemma disconnectStream_unwires_witness :
  let w := exec (connectStream (mkMediaStream 10 [11%nat] []))
             (exec (initialize default_options friendly)
                   (blank true, initial default_options)) in
  let w' := exec disconnectStream (w.1, w.2) in
  status w'.2 = ready /\ nodes w'.1 = nodes w.1.
Proof.
  intros w.
  destruct (disconnectStream_unwires w.1 w.2 (mkNodes 0 (Some 3%nat) 1 2) 3)
    as (_ & Hst & _ & _ & Hn & _);
    [vm_compute; reflexivity | reflexivity |].
  split; [exact Hst | exact Hn].
Defined.

(** X22: [cleanup] on an engine with nodes closes its context, forgets the
    nodes and the stream and is idle; when a source was attached, the
    connections that leave the source, the panner or the gain node are
    removed first.  The clean-up of the unmount effect is [cleanup]. *)
Theorem cleanup_releases (h : Host) (s : State) (n : SpatialAudioNodes) :
  nodesRef s = Some n ->
  let w' := exec cleanup (h, s) in
  result cleanup (h, s) = Normal tt /\
  status w'.2 = idle /\
  nodesRef w'.2 = None /\
  streamRef w'.2 = None /\
  contexts w'.1 = <[context n := closed]> (contexts h) /\
  (forall e,
     e ∈ edges w'.1 <->
     e ∈ edges h /\
     match source n with
     | Some src => e.1 <> src /\ e.1 <> panner n /\ e.1 <> gain_node n
     | None => True
     end) /\
  forall w : Host * State, unmount w = cleanup w.
Proof.
  destruct s as [st pos g nr sr], h as [ni cs ns es tl ct tr ls pr gd],
    n as [c [src|] p gn];
    cbv [nodesRef]; intros ->; cbv zeta; js_run.
  - split; [reflexivity|]. split; [reflexivity|]. split; [reflexivity|].
    split; [reflexivity|]. split; [reflexivity|]. split.
    + intros e. rewrite !list_elem_of_filter. tauto.
    + intros [h' [st' pos' g' [n'|] sr']]; reflexivity.
  - split; [reflexivity|]. split; [reflexivity|]. split; [reflexivity|].
    split; [reflexivity|]. split; [reflexivity|]. split.
    + intros e. tauto.
    + intros [h' [st' pos' g' [n'|] sr']]; reflexivity.
Qed.

(** The player's active engine is unmounted. *)
Lemma cleanup_releases_witness :
  let w := exec (connectStream (mkMediaStream 10 [11%nat] []))
             (exec (initialize default_options friendly)
                   (blank true, initial default_options)) in
  let w' := exec cleanup (w.1, w.2) in
  status w'.2 = idle /\
  contexts w'.1 = <[0%nat := closed]> (contexts w.1) /\
  unmount (w.1, w.2) = cleanup (w.1, w.2).
Proof.
  intros w.
  destruct (cleanup_releases w.1 w.2 (mkNodes 0 (Some 3%nat) 1 2))
    as (_ & Hst & _ & _ & Hc & _ & Hun); [vm_compute; reflexivity|].
  split; [exact Hst|]. split; [exact Hc | apply Hun].
Defined.

End EngineWiring.

Section EngineFrames.
Import Engine SpatialAudio Reach.

(** X23: while the engine is idle or in error, position and gain updates
    are ignored: [setPosition] and [setGain] return without a change to the
    hook or to the browser, so that the reported position and gain keep
    their values. *)
Theorem updates_ignored_without_graph (options : UseSpatialAudioOptions)
    (h0 : Host) (w : Host * State) (px py : Q) (height : option Q)
    (value : Q) :
  engine_reachable options h0 w ->
  status w.2 = idle \/ status w.2 = error ->
  setPosition px py height w = (Normal tt, w) /\
  setGain value w = (Normal tt, w).
Proof.
  intros Hreach Hst. pose proof (engine_inv_reachable _ _ _ Hreach) as Hinv.
  unfold engine_inv in Hinv. destruct w as [h [st pos g nr sr]].
  cbn [snd nodesRef status] in *.
  destruct nr as [n|]; [|split; reflexivity].
  destruct (source n); destruct Hst; congruence.
Qed.

(** The player's engine after a failed [initialize]. *)
Lemma updates_ignored_without_graph_witness :
  let w := exec (initialize default_options
                   (mkAudioEnv false false false false false))
                (blank true, initial default_options) in
  setPosition 1 1 None w = (Normal tt, w) /\
  setGain 0.5 w = (Normal tt, w).
Proof.
  apply (updates_ignored_without_graph default_options (blank true)).
  - apply rtc_once. apply step_initialize.
  - right. reflexivity.
Defined.

(** X24: the engine hook keeps away from the capture side of the browser:
    none of its operations stops or creates a track, adds a track listener,
    shows a sharing prompt or moves the clock. *)
Theorem engine_leaves_capture_alone (options : UseSpatialAudioOptions)
    (env : AudioEnv) (stream : MediaStream) (px py : Q) (height : option Q)
    (value : Q) (w : Host * State) :
  let same (h' : Host) :=
    tracks h' = tracks w.1 /\ listeners h' = listeners w.1 /\
    prompts h' = prompts w.1 /\ currentTime h' = currentTime w.1 /\
    has_getDisplayMedia h' = has_getDisplayMedia w.1 in
  same (exec (initialize options env) w).1 /\
  same (exec (connectStream stream) w).1 /\
  same (exec disconnectStream w).1 /\
  same (exec (setPosition px py height) w).1 /\
  same (exec (setGain value) w).1 /\
  same (exec cleanup w).1.
Proof.
  destruct w as [[ni cs ns es tl ct tr ls pr gd]
                 [st pos g [[c [src|] p gn]|] sr]],
    stream as [sid [|t ts] vs]; cbv zeta;
    (split; [|js_run; repeat split]);
    destruct env as [[] [] [] [] []]; js_run; rewrite ?lookup_insert_eq;
    js_run; repeat split.
Qed.

End EngineFrames.

(** ** The orchestration layer in full *)

Section OrchestrationInFull.
Import Player.

(** X25: a start that succeeds.  When [initialize] succeeds and the user
    grants a tab with audio, [handleStart] ends with the engine active and
    the capture hook capturing; both hold the same stream; the source node
    is made from that stream in the engine's running context and the chain
    source, panner, gain, destination is added to the connections; one
    prompt has been shown; stop and the pad are enabled and start is
    disabled. *)
Theorem start_succeeds (v : Capture.Variant) (env : AudioEnv)
    (n_audio n_video : nat) (w0 : World) :
  SpatialAudio.nodesRef (spatial w0) = None ->
  Capture.streamRef (capture w0) = None ->
  Capture.isSupported (capture w0) = true ->
  has_getDisplayMedia (host w0) = true ->
  result (SpatialAudio.initialize options env) (host w0, spatial w0)
  = Normal true ->
  let w := exec (handleStart v env (Granted (S n_audio) n_video)) w0 in
  result (handleStart v env (Granted (S n_audio) n_video)) w0 = Normal tt /\
  SpatialAudio.status (spatial w) = SpatialAudio.active /\
  Capture.status (capture w) = Capture.capturing /\
  prompts (host w) = S (prompts (host w0)) /\
  display w = {| statusText := "3D音響有効";
                 errorText := None;
                 startEnabled := false;
                 stopEnabled := true;
                 padDisabled := false |} /\
  exists s src n,
    Capture.streamRef (capture w) = Some s /\
    SpatialAudio.streamRef (spatial w) = Some s /\
    SpatialAudio.nodesRef (spatial w) = Some n /\
    Engine.source n = Some src /\
    nodes (host w) !! src
    = Some (MediaStreamAudioSourceNode (Engine.context n) s) /\
    contexts (host w) !! Engine.context n = Some running /\
    edges (host w)
    = edges (host w0) ++
      [(src, ToNode (Engine.panner n));
       (Engine.panner n, ToNode (Engine.gain_node n));
       (Engine.gain_node n, ToDestination (Engine.context n))].
Proof.
  destruct w0 as [h sp [cst cer csm csup csr]].
  cbn [spatial capture host Capture.streamRef Capture.isSupported].
  intros Hnodes -> -> Hgd Hinit.
  destruct (initialize_success options env h sp Hnodes Hinit)
    as (h1 & attrs & E1 & Hid & Hc & Hn & He & _ & _ & Hpr1 & Hgd1).
  destruct h1 as [ni1 cs1 ns1 es1 tl1 ct1 tr1 ls1 pr1 gd1].
  cbn [next_id contexts nodes edges prompts has_getDisplayMedia] in *.
  rewrite Hgd in Hgd1. subst ni1 cs1 ns1 es1 pr1 gd1.
  set (c := next_id h) in *.
  cbv zeta. unfold result, exec, handleStart, bind, onSpatial, onCapture, zoom.
  cbn [host spatial capture]. rewrite E1.
  cbn [fst snd negb host spatial capture].
  destruct v.
  - pose proof (startCapture_player n_audio n_video (S (S (S c)))
                  (<[c := running]> (contexts h))
                  (<[S (S c) := GainNode c]>
                     (<[S c := PannerNode c attrs]> (nodes h)))
                  (edges h) tl1 ct1 tr1 ls1 (prompts h) cst cer csm) as E2.
    cbv zeta in E2. rewrite E2. clear E2. cbn [fst snd seq]. js_run.
    repeat split.
    eexists; eexists; eexists. repeat split.
    + apply lookup_insert_eq.
    + rewrite lookup_insert_eq. reflexivity.
    + rewrite <- !app_assoc. reflexivity.
  - pose proof (startCapture_shared n_audio n_video (S (S (S c)))
                  (<[c := running]> (contexts h))
                  (<[S (S c) := GainNode c]>
                     (<[S c := PannerNode c attrs]> (nodes h)))
                  (edges h) tl1 ct1 tr1 ls1 (prompts h) cst cer csm) as E2.
    cbv zeta in E2. rewrite E2. clear E2. cbn [fst snd seq]. js_run.
    repeat split.
    eexists; eexists; eexists. repeat split.
    + apply lookup_insert_eq.
    + rewrite lookup_insert_eq. reflexivity.
    + rewrite <- !app_assoc. reflexivity.
Qed.

(** The player in an empty browser, granted a tab with one audio and one
    video track. *)
Lemma start_succeeds_witness :
  let w := exec (handleStart Capture.player_hook friendly (Granted 1 1))
                (mounted (blank true)) in
  SpatialAudio.status (spatial w) = SpatialAudio.active /\
  Capture.status (capture w) = Capture.capturing /\
  prompts (host w) = S (prompts (host (mounted (blank true)))).
Proof.
  destruct (start_succeeds Capture.player_hook friendly 0 1
              (mounted (blank true)))
    as (_ & Hs & Hc & Hp & _);
    [reflexivity | reflexivity | reflexivity | reflexivity
    | vm_compute; reflexivity |].
  split; [exact Hs | split; [exact Hc | exact Hp]].
Defined.

(** X26: a start that fails at the engine.  When [initialize] returns
    [false], [handleStart] does not ask for the capture: no prompt is shown,
    the capture hook and the tracks are as before, the engine is in error
    without nodes.  What the user is shown does not tell: the display is the
    one from before the start. *)
Theorem start_fails_at_engine (v : Capture.Variant) (env : AudioEnv)
    (o : DisplayMediaOutcome) (w0 : World) :
  SpatialAudio.nodesRef (spatial w0) = None ->
  SpatialAudio.status (spatial w0) = SpatialAudio.idle
  \/ SpatialAudio.status (spatial w0) = SpatialAudio.error ->
  result (SpatialAudio.initialize options env) (host w0, spatial w0)
  = Normal false ->
  let w := exec (handleStart v env o) w0 in
  result (handleStart v env o) w0 = Normal tt /\
  SpatialAudio.status (spatial w) = SpatialAudio.error /\
  SpatialAudio.nodesRef (spatial w) = None /\
  capture w = capture w0 /\
  prompts (host w) = prompts (host w0) /\
  tracks (host w) = tracks (host w0) /\
  display w = display w0.
Proof.
  destruct w0 as [[ni cs ns es tl ct tr ls pr gd] [st pos g nr sr] cp].
  cbn [spatial capture host SpatialAudio.nodesRef SpatialAudio.status].
  intros -> Hst Hinit. cbv zeta.
  destruct env as [[] sus res lp lf];
    [destruct sus, res, lp, lf|];
    js_run_in Hinit; rewrite ?lookup_insert_eq in Hinit; js_run_in Hinit;
    try discriminate Hinit;
    unfold result, exec, handleStart, bind, onSpatial, onCapture, zoom;
    cbn [host spatial capture]; js_run; rewrite ?lookup_insert_eq; js_run;
    (split; [reflexivity|]); (split; [reflexivity|]);
    (split; [reflexivity|]); (split; [reflexivity|]);
    (split; [reflexivity|]); (split; [reflexivity|]);
    unfold display; cbn [spatial capture SpatialAudio.status];
    destruct Hst as [-> | ->], (Capture.status cp); reflexivity.
Qed.

(** The player in a browser that cannot create an audio context. *)
Lemma start_fails_at_engine_witness :
  let env := mkAudioEnv false false false false false in
  let w := exec (handleStart Capture.player_hook env (Granted 1 1))
                (mounted (blank true)) in
  SpatialAudio.status (spatial w) = SpatialAudio.error /\
  prompts (host w) = prompts (host (mounted (blank true))) /\
  display w = display (mounted (blank true)).
Proof.
  destruct (start_fails_at_engine Capture.player_hook
              (mkAudioEnv false false false false false) (Granted 1 1)
              (mounted (blank true)))
    as (_ & Hs & _ & _ & Hp & _ & Hd);
    [reflexivity | left; reflexivity | reflexivity |].
  split; [exact Hs | split; [exact Hp | exact Hd]].
Defined.

(** X27: [handleStop] is a full teardown from any state.  It never throws;
    afterwards the engine holds no nodes, the capture hook is idle without
    error and without stream, every track of the stream the capture hook
    held is ended, and an engine that had nodes is idle without a stream
    and with its context closed.  A second [handleStop] changes nothing. *)
Theorem stop_tears_down (w : World) :
  let w' := exec handleStop w in
  result handleStop w = Normal tt /\
  SpatialAudio.nodesRef (spatial w') = None /\
  capture w'
  = Capture.mkState Capture.idle None None
      (Capture.isSupported (capture w)) None /\
  (forall n, SpatialAudio.nodesRef (spatial w) = Some n ->
             SpatialAudio.status (spatial w') = SpatialAudio.idle /\
             SpatialAudio.streamRef (spatial w') = None /\
             contexts (host w') !! Engine.context n = Some closed) /\
  (forall s t, Capture.streamRef (capture w) = Some s -> t ∈ getTracks s ->
               tracks (host w') !! t = Some ended) /\
  handleStop w' = (Normal tt, w').
Proof.
  destruct w as [[ni cs ns es tl ct tr ls pr gd]
                 [st pos g [[c [src|] p gn]|] sr]
                 [cst cer csm csup [s|]]];
    cbv zeta; unfold result, exec, handleStop, bind, onSpatial, onCapture,
      zoom;
    cbn [host spatial capture]; js_run;
    try match goal with
        | |- context [forEach _ _ ?h] =>
            let E := fresh "E" in
            pose proof (forEach_stopTrack (getTracks s) h) as E;
            js_run_in E; rewrite !E; clear E
        end;
    js_run;
    (split; [reflexivity|]); (split; [reflexivity|]);
    (split; [reflexivity|]);
    (split; [first [ intros n' [= <-]; split; [reflexivity|];
                     split; [reflexivity | apply lookup_insert_eq]
                   | intros n' H; discriminate H ] |]);
    (split; [first [ intros s' t [= <-] Hin; apply lookup_markAll_in;
                     exact Hin
                   | intros s' t H; discriminate H ] |]);
    reflexivity.
Qed.

(** Stopping the player that was started in an empty browser. *)
Lemma stop_tears_down_witness :
  let w := exec (handleStart Capture.player_hook friendly (Granted 1 1))
                (mounted (blank true)) in
  let w' := exec handleStop w in
  SpatialAudio.status (spatial w') = SpatialAudio.idle /\
  contexts (host w') !! 0%nat = Some closed /\
  tracks (host w') !! 4%nat = Some ended.
Proof.
  destruct (stop_tears_down
              (exec (handleStart Capture.player_hook friendly (Granted 1 1))
                    (mounted (blank true))))
    as (_ & _ & _ & Hn & Ht & _).
  destruct (Hn (Engine.mkNodes 0%nat (Some 6%nat) 1%nat 2%nat)
               ltac:(vm_compute; reflexivity)) as (Hs & _ & Hc).
  split; [exact Hs|]. split; [exact Hc|].
  apply (Ht (mkMediaStream 3%nat [4%nat] [5%nat]) 4%nat);
    [vm_compute; reflexivity | apply list_elem_of_here].
Defined.

(** X28: the buttons of the controls.  Start and stop are never enabled
    together, and both are enabled only as the statuses say: stop exactly
    when the engine is active, start only in a supporting browser.  The
    engine's own error is not shown: with the engine in error the status
    text and both buttons are the same as with the engine idle. *)
Theorem controls_exclusive (isSupported : bool)
    (captureStatus : Capture.CaptureStatus)
    (spatialStatus : SpatialAudio.SpatialAudioStatus) :
  (Controls.canStart isSupported captureStatus spatialStatus
   && Controls.canStop spatialStatus = false)%bool /\
  (Controls.canStop spatialStatus = true <->
   spatialStatus = SpatialAudio.active) /\
  (Controls.canStart isSupported captureStatus spatialStatus = true <->
   isSupported = true /\ captureStatus <> Capture.requesting /\
   spatialStatus <> SpatialAudio.active /\
   spatialStatus <> SpatialAudio.initializing) /\
  Controls.getStatusText captureStatus SpatialAudio.error
  = Controls.getStatusText captureStatus SpatialAudio.idle /\
  Controls.canStart isSupported captureStatus SpatialAudio.error
  = Controls.canStart isSupported captureStatus SpatialAudio.idle /\
  Controls.canStop SpatialAudio.error = Controls.canStop SpatialAudio.idle.
Proof.
  split; [destruct isSupported, captureStatus, spatialStatus; reflexivity|].
  split; [destruct spatialStatus; split; (reflexivity || discriminate)|].
  split.
  - destruct isSupported, captureStatus, spatialStatus; split;
      try discriminate; try (intros (? & ? & ? & ?); congruence);
      intros _; repeat split; discriminate.
  - destruct isSupported, captureStatus; repeat split.
Qed.

End OrchestrationInFull.
